(** * gemini-ai-sdk: media classification, part assembly, upload polling and
      chat history, embedded from the package's main module.

    The development follows the source top to bottom:
    - [isFileUpload], [supportedFileFormats], [formatMap], [getFileType];
    - the [Chat] class;
    - the [Gemini] class: [uploadFile] (with its status polling loop),
      [messageToParts], [ask], [askStream], [createChat].

    JavaScript effects are explicit.  Network traffic goes through a [world]
    that holds the replies the remote service is going to give, in order, and
    the log of requests and timer waits performed so far.  Arrays that are
    shared by reference (the chat history) live in a [heap]. *)

From stdpp Require Import base list strings gmap.
From Stdlib Require Import ZArith QArith Qminmax Qpower Lia Lqa.
From Stdlib Require Import String Ascii List Bool.
From Stdlib.Strings Require Import Byte.
From Stdlib Require Import Sorted.
Import ListNotations.
Close Scope Q_scope.
Open Scope Z_scope.
Open Scope string_scope.
Open Scope list_scope.

Set Default Proof Using "Type".

(** ** JavaScript values met by the classifier *)

(** The values a [format] variable of [getFileType] can hold: [undefined]
    (no sniffed type), [null] (no type for the extension), a string, or a
    non-string object reached through the prototype chain of [formatMap]. *)
Inductive jsval : Type :=
| JUndefined
| JNull
| JString (s : string)
| JObject.

Definition bytes : Type := list Byte.byte.

(** [Buffer.from(buffer).byteLength] *)
Definition byteLength (buffer : bytes) : Z := Z.of_nat (length buffer).

(** ToBoolean *)
Definition truthy (v : jsval) : bool :=
  match v with
  | JString s => negb (s =? "")
  | JObject => true
  | JUndefined | JNull => false
  end.

(** [a || b] *)
Definition js_or (a b : jsval) : jsval := if truthy a then a else b.

(** ToString, as applied to a computed property key *)
Definition ToString (v : jsval) : string :=
  match v with
  | JUndefined => "undefined"
  | JNull => "null"
  | JString s => s
  | JObject => "[object Object]"
  end.

(** [fileType?.mime] and the result of [mime.getType] *)
Definition optional_mime (fileType : option string) : jsval :=
  match fileType with Some m => JString m | None => JUndefined end.

Definition nullable_mime (t : option string) : jsval :=
  match t with Some m => JString m | None => JNull end.

(** [supportedFileFormats] *)
Definition supportedFileFormats : list string :=
  [ "image/png"; "image/jpeg"; "image/webp"; "image/heic"; "image/heif";
    "audio/wav"; "audio/mp3"; "audio/mpeg"; "audio/aiff"; "audio/aac";
    "audio/ogg"; "audio/flac";
    "video/mp4"; "video/mpeg"; "video/mov"; "video/avi"; "video/x-flv";
    "video/mpg"; "video/webm"; "video/wmv"; "video/3gpp";
    "text/plain"; "text/html"; "text/css"; "text/javascript";
    "application/x-javascript"; "text/x-typescript";
    "application/x-typescript"; "text/csv"; "text/markdown";
    "text/x-python"; "application/x-python-code"; "application/json";
    "text/xml"; "application/rtf"; "text/rtf"; "application/pdf" ].

(** [Array.prototype.includes]: strict equality, so only a string can be a
    member of a list of strings. *)
Definition includes (l : list string) (v : jsval) : bool :=
  match v with
  | JString s => existsb (String.eqb s) l
  | _ => false
  end.

(** Property names every object literal inherits from [Object.prototype];
    reading one of them from [formatMap] gives a function or an object, not
    [undefined]. *)
Definition Object_prototype_keys : list string :=
  [ "constructor"; "__proto__"; "hasOwnProperty"; "isPrototypeOf";
    "propertyIsEnumerable"; "toLocaleString"; "toString"; "valueOf";
    "__defineGetter__"; "__defineSetter__"; "__lookupGetter__";
    "__lookupSetter__" ].

(** [formatMap[key]] *)
Definition formatMap (key : string) : jsval :=
  if key =? "audio/mpeg" then JString "audio/mp3"
  else if key =? "video/quicktime" then JString "video/mov"
  else if existsb (String.eqb key) Object_prototype_keys then JObject
  else JUndefined.

(** ** Errors, the network and the effect monad *)

(** Exceptions.  The source throws plain [Error]s told apart by message; a
    [TypeError] is what the runtime raises on a property read of
    [undefined]. *)
Inductive exn : Type :=
| Error (message : string)
| TypeError (message : string).

Definition exn_message (e : exn) : string :=
  match e with Error m | TypeError m => m end.

(** The [file] object of an upload response, with the two fields the
    source reads, as the strings the service gives them. *)
Record file_info : Type := FileInfo { file_name : string; file_uri : string }.

(** A parsed JSON response body, with the three fields the source reads:
    [file] (upload response), [error.message] and [state] (status
    response). *)
Record json : Type := Json {
  json_file : option file_info;
  json_error : option string;
  json_state : option string
}.

(** What one [fetch(...)] followed by [.json()] yields: a rejection (transport
    failure, unparsable body) with its message, or a parsed body. *)
Inductive reply : Type :=
| Rejected (message : string)
| Body (data : json).

Inductive method : Type := GET | POST.

(** Observable effects, in the order performed.  A [POST] carries the
    declared MIME type and the raw bytes of the multipart body; the random
    multipart boundary is transport framing and is not recorded. *)
Inductive event : Type :=
| Fetch (m : method) (url : string) (payload : option (string * bytes))
| Sleep (ms : Q).

Record world : Type := World {
  pending : list reply;   (* replies the service will give, in order *)
  log : list event        (* requests and waits so far, oldest first *)
}.

(** Result of running an [async] function: it resolves, it rejects, or it is
    still awaiting a reply when the scripted replies run out. *)
Inductive outcome (A : Type) : Type :=
| Ret (a : A)
| Throw (e : exn)
| Awaiting.
Arguments Ret {A} a.
Arguments Throw {A} e.
Arguments Awaiting {A}.

Definition M (A : Type) : Type := world -> outcome A * world.

Definition ret {A} (a : A) : M A := fun w => (Ret a, w).
Definition throw {A} (e : exn) : M A := fun w => (Throw e, w).
Definition bind {A B} (m : M A) (k : A -> M B) : M B :=
  fun w =>
    match m w with
    | (Ret a, w') => k a w'
    | (Throw e, w') => (Throw e, w')
    | (Awaiting, w') => (Awaiting, w')
    end.

Notation "'let*' x ':=' c1 'in' c2" := (bind c1 (fun x => c2))
  (at level 10, x pattern, c1 at level 100, c2 at level 200).

(** A promise of a third-party library once it has settled: fulfilled with
    a value, or rejected with an error. *)
Inductive promise (A : Type) : Type :=
| Resolves (a : A)
| Rejects (e : exn).
Arguments Resolves {A} a.
Arguments Rejects {A} e.

(** [await p]: the value of a fulfilled promise; a rejected one throws its
    error at the [await]. *)
Definition await {A} (p : promise A) : M A :=
  match p with
  | Resolves a => ret a
  | Rejects e => throw e
  end.

(** Append an event to the log. *)
Definition emit (e : event) : M unit :=
  fun w => (Ret tt, {| pending := pending w; log := log w ++ [e] |}).

(** [await fetch(url, init).then(res => res.json())]: the request is logged,
    then the next scripted reply is consumed. *)
Definition fetch (m : method) (url : string) (payload : option (string * bytes))
  : M json :=
  fun w =>
    let lg := log w ++ [Fetch m url payload] in
    match pending w with
    | [] => (Awaiting, {| pending := []; log := lg |})
    | Rejected msg :: rest => (Throw (TypeError msg), {| pending := rest; log := lg |})
    | Body data :: rest => (Ret data, {| pending := rest; log := lg |})
    end.

(** ** [getFileType] *)

Definition unsupported_format_message : string :=
  "Please provide a valid file format that is accepted by Gemini. Learn more about valid formats here: https://ai.google.dev/gemini-api/docs/prompting_with_media?lang=node#supported_file_formats".

Section Classifier.

(** The two third-party detectors.  [fileTypeFromBuffer] of [file-type] is
    asynchronous: its promise is fulfilled with the [mime] of the detected
    type, if any, or rejected, as it is when the buffer ends in the middle
    of a structure the detector is reading.  [mime.getType] of [mime-lite]
    is a synchronous table lookup. *)
Variable fileTypeFromBuffer : bytes -> promise (option string).
Variable mime_getType : string -> option string.

(** [if (!valid && filePath)]: a path is truthy when present and
    non-empty. *)
Definition truthy_path (filePath : option string) : bool :=
  match filePath with
  | Some p => negb (p =? "")
  | None => false
  end.

Definition getFileType (buffer : bytes) (filePath : option string)
    (strict : bool) : M jsval :=
  let* fileType := await (fileTypeFromBuffer buffer) in
  let format := js_or (formatMap (ToString (optional_mime fileType)))
                      (optional_mime fileType) in
  let valid := includes supportedFileFormats format in
  let '(format, valid) :=
    if negb valid && truthy_path filePath then
      let format := nullable_mime (mime_getType (default "" filePath)) in
      let format := js_or (formatMap (ToString format)) format in
      (format, includes supportedFileFormats format)
    else (format, valid) in
  if negb valid then
    if strict then throw (Error unsupported_format_message)
    else ret (JString "text/plain")
  else ret format.

End Classifier.

(** ** The [Gemini] class: [uploadFile] *)

(** The two fields of a [Gemini] instance the methods read:
    [this.genAI.apiKey] and [this.options.apiVersion]. *)
Record Gemini : Type := { apiKey : string; apiVersion : option string }.

(** [new Gemini(apiKey, options)], with
    [this.options = { apiVersion: "v1beta", ...options }]: the default is
    kept when [options] has no [apiVersion] key ([None]); a key that is
    present wins, also when its value is [undefined] ([Some None]). *)
Definition new_Gemini (key : string) (version : option (option string))
    : Gemini :=
  {| apiKey := key;
     apiVersion := match version with
                   | Some v => v
                   | None => Some "v1beta"
                   end |}.

(** [${this.options.apiVersion}] in a template literal *)
Definition version_text (g : Gemini) : string :=
  default "undefined" (apiVersion g).

Definition upload_url (g : Gemini) : string :=
  "https://generativelanguage.googleapis.com/upload/" +:+ version_text g
    +:+ "/files?key=" +:+ apiKey g.

Definition status_url (g : Gemini) (name : string) : string :=
  "https://generativelanguage.googleapis.com/" +:+ version_text g +:+ "/"
    +:+ name +:+ "?key=" +:+ apiKey g.

Definition MAX_BACKOFF : Q := 5000%Q.
Definition INITIAL_WAIT : Q := 250%Q.

Definition api_error_prefix : string :=
  "Google's File API responded with an error: ".
Definition upload_error_prefix : string :=
  "An error occurred while uploading to Google's File API: ".
Definition undefined_name_message : string :=
  "Cannot read properties of undefined (reading 'name')".
Definition undefined_uri_message : string :=
  "Cannot read properties of undefined (reading 'uri')".

(** [try { body } catch (error) { handler }] *)
Definition try_catch {A} (body : M A) (handler : exn -> M A) : M A :=
  fun w =>
    match body w with
    | (Throw e, w') => handler e w'
    | r => r
    end.

(** [fileSendData.name] / [fileSendData.uri], where [fileSendData] may be
    [undefined]. *)
Definition read_field (fileSendData : option file_info)
    (field : file_info -> string) (message : string) : M string :=
  match fileSendData with
  | Some f => ret (field f)
  | None => throw (TypeError message)
  end.

(** One turn of the [while (true)] loop of [uploadFile].  [None] is the
    [break]; [Some w] continues with the next wait time [w]. *)
Definition poll_once (g : Gemini) (fileSendData : option file_info)
    (waitTime : Q) : M (option Q) :=
  try_catch
    (let* name := read_field fileSendData file_name undefined_name_message in
     let url := status_url g name in
     let* data := fetch GET url None in
     match json_error data with
     | Some message => throw (Error (api_error_prefix +:+ message))
     | None =>
         if bool_decide (json_state data = Some "ACTIVE") then ret None
         else
           let* _ := emit (Sleep waitTime) in
           ret (Some (Qmin (waitTime * 1.5) MAX_BACKOFF))
     end)
    (fun error => throw (Error (upload_error_prefix +:+ exn_message error))).

(** The loop itself.  A turn that continues has consumed one reply, so
    [fuel] turns are enough whenever [fuel] exceeds the number of replies
    left; see [poll_fuel]. *)
Fixpoint poll (fuel : nat) (g : Gemini) (fileSendData : option file_info)
    (waitTime : Q) : M unit :=
  match fuel with
  | O => fun w => (Awaiting, w)
  | S fuel' =>
      let* next := poll_once g fileSendData waitTime in
      match next with
      | None => ret tt
      | Some waitTime' => poll fuel' g fileSendData waitTime'
      end
  end.

Definition poll_until_active (g : Gemini) (fileSendData : option file_info)
    : M unit :=
  fun w => poll (S (length (pending w))) g fileSendData INITIAL_WAIT w.

(** [uploadFile({ file, mimeType })] *)
Definition uploadFile (g : Gemini) (file : bytes) (mimeType : string)
    : M string :=
  let* fileSendDataRaw := fetch POST (upload_url g) (Some (mimeType, file)) in
  let fileSendData := json_file fileSendDataRaw in
  let* _ := poll_until_active g fileSendData in
  read_field fileSendData file_uri undefined_uri_message.

(** ** [isFileUpload] and [messageToParts] *)

(** [Part] of the wrapped client: [{ text }], [{ inlineData: { mimeType,
    data } }] with base64 [data], or [{ fileData: { mimeType, fileUri } }]. *)
Inductive Part : Type :=
| TextPart (text : string)
| InlineDataPart (mimeType data : string)
| FileDataPart (mimeType fileUri : string).

(** An element of the [messages] array.  The declared element type is
    [string | Uint8Array | ArrayBuffer | FileUpload]; the tests in the loop
    are dynamic, so a plain object may lack either field of [FileUpload]
    ([None] is an absent or [undefined] field) and any other value is
    [MOther]. *)
Inductive message : Type :=
| MString (s : string)
| MArrayBuffer (b : bytes)
| MUint8Array (b : bytes)
| MObject (buffer : option bytes) (filePath : option string)
| MOther.

(** [FileUpload = { buffer: ArrayBuffer; filePath: string }] *)
Definition FileUpload (buffer : bytes) (filePath : string) : message :=
  MObject (Some buffer) (Some filePath).

(** [isFileUpload(data)], i.e. [data && data.buffer && data.filePath], as a
    condition.  A string or an [ArrayBuffer] has no [buffer] property worth
    the name, a [Uint8Array] has a [buffer] but no [filePath]. *)
Definition isFileUpload (data : message) : bool :=
  match data with
  | MObject (Some _) filePath => truthy_path filePath
  | _ => false
  end.

Definition instanceof_ArrayBuffer (msg : message) : bool :=
  match msg with MArrayBuffer _ => true | _ => false end.

Definition instanceof_Uint8Array (msg : message) : bool :=
  match msg with MUint8Array _ => true | _ => false end.

(** [msg.buffer] and [msg.filePath] of an object, [msg] itself as bytes *)
Definition field_buffer (msg : message) : bytes :=
  match msg with MObject (Some b) _ => b | _ => [] end.

Definition field_filePath (msg : message) : option string :=
  match msg with MObject _ p => p | _ => None end.

Definition as_bytes (msg : message) : bytes :=
  match msg with MArrayBuffer b | MUint8Array b => b | _ => [] end.

Definition SIZE_THRESHOLD : Z := 20 * 1024 * 1024.

Definition not_a_string_message : string :=
  "mimeType.startsWith is not a function".

Section Assembler.

Variable fileTypeFromBuffer : bytes -> promise (option string).
Variable mime_getType : string -> option string.

(** Node's [Buffer.from(b).toString("base64")] and
    [Buffer.from(s, "base64")]. *)
Variable toBase64 : bytes -> string.
Variable fromBase64 : string -> bytes.

Variable g : Gemini.

(** The body of [for (const msg of messages)], on the two accumulators
    [parts] and [totalBytes]. *)
Definition step (msg : message) (acc : list Part * Z) : M (list Part * Z) :=
  let '(parts, totalBytes) := acc in
  match msg with
  | MString s => ret (parts ++ [TextPart s], totalBytes)
  | _ =>
      if instanceof_ArrayBuffer msg || instanceof_Uint8Array msg
         || isFileUpload msg
      then
        let is_file_upload := isFileUpload msg in
        let buffer := if is_file_upload then field_buffer msg
                      else as_bytes msg in
        let filePath := if is_file_upload then field_filePath msg
                        else None in
        let totalBytes := totalBytes + byteLength buffer in
        let* mimeType :=
          getFileType fileTypeFromBuffer mime_getType buffer filePath false in
        match mimeType with
        | JString mimeType =>
            if negb (String.prefix "video" mimeType) then
              ret (parts ++ [InlineDataPart mimeType (toBase64 buffer)],
                   totalBytes)
            else
              let* fileURI := uploadFile g buffer mimeType in
              ret (parts ++ [FileDataPart mimeType fileURI], totalBytes)
        | _ => throw (TypeError not_a_string_message)
        end
      else ret (parts, totalBytes)
  end.

Fixpoint for_of (messages : list message) (acc : list Part * Z)
    : M (list Part * Z) :=
  match messages with
  | [] => ret acc
  | msg :: rest => let* acc' := step msg acc in for_of rest acc'
  end.

(** The body of [for (const idx in parts)], over the indices still to
    visit; [parts[idx] = newPart] replaces in place. *)
Fixpoint for_in (indices : list nat) (parts : list Part) : M (list Part) :=
  match indices with
  | [] => ret parts
  | idx :: rest =>
      match parts !! idx with
      | Some (InlineDataPart mimeType data) =>
          let* fileURI := uploadFile g (fromBase64 data) mimeType in
          for_in rest (<[idx := FileDataPart mimeType fileURI]> parts)
      | _ => for_in rest parts
      end
  end.

Definition messageToParts (messages : list message) : M (list Part) :=
  let* acc := for_of messages ([], 0) in
  let '(parts, totalBytes) := acc in
  if (SIZE_THRESHOLD <? totalBytes)%Z then
    for_in (seq 0 (length parts)) parts
  else ret parts.

End Assembler.

(** ** The [Chat] class and [Gemini.ask], [askStream], [createChat] *)

(** [Content] of the wrapped client: one turn of the conversation. *)
Record Content : Type := { role : string; parts : list Part }.

(** History arrays are JavaScript arrays held by reference: the array given
    as [options.history] is the very array [Chat] pushes to and the wrapped
    client is handed.  The heap maps a reference to the array's contents. *)
Abbreviation ref := nat.
Abbreviation heap := (list (list Content)).

(** [[]]: a fresh empty array *)
Definition alloc (h : heap) : ref * heap := (length h, h ++ [[]]).

(** [array.push(x)] *)
Definition push (r : ref) (x : Content) (h : heap) : heap :=
  alter (fun l => l ++ [x]) r h.

(** An optional property of an options object: absent ([None]), present
    but [undefined] ([Some None]), or present with a value. *)
Definition prop (A : Type) : Type := option (option A).

(** The value read from a property: [undefined] when absent. *)
Definition read {A} (p : prop A) : option A :=
  match p with Some v => v | None => None end.

(** One property of [{ ...a, ...b }]: the one of [b] when [b] has the key. *)
Definition spread_prop {A} (a b : prop A) : prop A :=
  match b with Some v => Some v | None => a end.

Section Session.

(** Payload types of the wrapped client that this library only forwards. *)
Variables GenerationConfig SafetySetting : Type.
Variables GenerateContentResult GenerateContentStreamResult : Type.

(** [Partial<AskOptions>] *)
Record AskOptions : Type := {
  opt_model : prop string;
  opt_history : prop ref;
  opt_generationConfig : prop GenerationConfig;
  opt_safetySettings : prop (list SafetySetting);
  opt_systemInstruction : prop Content
}.

(** [{}] *)
Definition no_options : AskOptions :=
  {| opt_model := None; opt_history := None; opt_generationConfig := None;
     opt_safetySettings := None; opt_systemInstruction := None |}.

(** [{ ...a, ...b }] *)
Definition spread (a b : AskOptions) : AskOptions :=
  {| opt_model := spread_prop (opt_model a) (opt_model b);
     opt_history := spread_prop (opt_history a) (opt_history b);
     opt_generationConfig :=
       spread_prop (opt_generationConfig a) (opt_generationConfig b);
     opt_safetySettings :=
       spread_prop (opt_safetySettings a) (opt_safetySettings b);
     opt_systemInstruction :=
       spread_prop (opt_systemInstruction a) (opt_systemInstruction b) |}.

(** What reaches the wrapped client: the arguments of
    [getGenerativeModel] and [startChat]. *)
Record StartChatParams : Type := {
  sc_model : option string;
  sc_apiVersion : option string;
  sc_history : ref;
  sc_generationConfig : option GenerationConfig;
  sc_safetySettings : option (list SafetySetting);
  sc_systemInstruction : option Content
}.

(** The wrapped client: [model.startChat(params).sendMessage(parts)] and
    [...sendMessageStream(parts)].  It is handed the history array by
    reference and may write to the heap. *)
Variable sendMessage :
  StartChatParams -> list Part -> heap -> outcome GenerateContentResult * heap.
Variable sendMessageStream :
  StartChatParams -> list Part -> heap ->
  outcome GenerateContentStreamResult * heap.

(** [typeof message === "string" ? [{ text: message }] : message] *)
Definition message_parts (message : string + list Part) : list Part :=
  match message with
  | inl text => [TextPart text]
  | inr ps => ps
  end.

(** The parameters [Gemini.ask] and [Gemini.askStream] build, with
    [history || []] evaluated on the heap. *)
Definition start_params (g : Gemini) (options : AskOptions) (h : heap)
    : StartChatParams * heap :=
  let '(history, h') :=
    match read (opt_history options) with
    | Some r => (r, h)
    | None => alloc h
    end in
  ({| sc_model := read (opt_model options);
      sc_apiVersion := apiVersion g;
      sc_history := history;
      sc_generationConfig := read (opt_generationConfig options);
      sc_safetySettings := read (opt_safetySettings options);
      sc_systemInstruction := read (opt_systemInstruction options) |}, h').

(** [Gemini.ask(message, options)] *)
Definition Gemini_ask (g : Gemini) (message : string + list Part)
    (options : AskOptions) (h : heap) : outcome GenerateContentResult * heap :=
  let ps := message_parts message in
  let '(params, h') := start_params g options h in
  sendMessage params ps h'.

(** [Gemini.askStream(message, options)] *)
Definition Gemini_askStream (g : Gemini) (message : string + list Part)
    (options : AskOptions) (h : heap)
    : outcome GenerateContentStreamResult * heap :=
  let ps := message_parts message in
  let '(params, h') := start_params g options h in
  sendMessageStream params ps h'.

Record Chat : Type := {
  chat_gemini : Gemini;
  chat_history : ref;
  chat_options : AskOptions
}.

(** [new Chat(gemini, options)]: [this.history = options.history || []] *)
Definition new_Chat (g : Gemini) (options : AskOptions) (h : heap)
    : Chat * heap :=
  let '(history, h') :=
    match read (opt_history options) with
    | Some r => (r, h)
    | None => alloc h
    end in
  ({| chat_gemini := g; chat_history := history; chat_options := options |},
   h').

(** [Gemini.createChat(options)] *)
Definition createChat (g : Gemini) (options : AskOptions) (h : heap)
    : Chat * heap :=
  new_Chat g options h.

(** [Chat.appendMessage(message)] *)
Definition appendMessage (c : Chat) (message : Content) (h : heap) : heap :=
  push (chat_history c) message h.

(** [{ history: this.history, ...mergedOptions }] *)
Definition with_history (c : Chat) (mergedOptions : AskOptions)
    : AskOptions :=
  spread {| opt_model := None; opt_history := Some (Some (chat_history c));
            opt_generationConfig := None; opt_safetySettings := None;
            opt_systemInstruction := None |}
         mergedOptions.

(** [Chat.ask(message, options)] *)
Definition Chat_ask (c : Chat) (message : string + list Part)
    (options : AskOptions) (h : heap) : outcome GenerateContentResult * heap :=
  let mergedOptions := spread (chat_options c) options in
  Gemini_ask (chat_gemini c) message (with_history c mergedOptions) h.

(** [Chat.askStream(message, options)] *)
Definition Chat_askStream (c : Chat) (message : string + list Part)
    (options : AskOptions) (h : heap)
    : outcome GenerateContentStreamResult * heap :=
  let mergedOptions := spread (chat_options c) options in
  Gemini_askStream (chat_gemini c) message (with_history c mergedOptions) h.

End Session.

(** No array of the heap loses, changes or reorders an entry: what it held
    before is a prefix of what it holds after. *)
Definition heap_extends (h h' : heap) : Prop :=
  forall (r : ref) (l : list Content),
    h !! r = Some l -> exists l', h' !! r = Some (l ++ l').

(** ** Readings of the assembler used in the statements *)

(** The buffer and path hint of an element the loop treats as binary: raw
    bytes, or an object that passes [isFileUpload]. *)
Definition binary_input (msg : message) : option (bytes * option string) :=
  match msg with
  | MArrayBuffer b | MUint8Array b => Some (b, None)
  | MObject (Some b) filePath =>
      if truthy_path filePath then Some (b, filePath) else None
  | _ => None
  end.

(** An element for which the loop pushes a part. *)
Definition handled (msg : message) : bool :=
  match msg with
  | MString _ => true
  | _ => bool_decide (is_Some (binary_input msg))
  end.

(** The three tests of the loop all fail: the element falls through. *)
Definition skipped (msg : message) : bool :=
  match msg with
  | MString _ => false
  | _ => negb (instanceof_ArrayBuffer msg || instanceof_Uint8Array msg
               || isFileUpload msg)
  end.

(** A value of the declared binary element types: [ArrayBuffer],
    [Uint8Array], or a [FileUpload] with both of its fields. *)
Definition declared_binary (msg : message) : bool :=
  match msg with
  | MArrayBuffer _ | MUint8Array _ | MObject (Some _) (Some _) => true
  | _ => false
  end.

Definition is_text (p : Part) : bool :=
  match p with TextPart _ => true | _ => false end.
Definition is_inline (p : Part) : bool :=
  match p with InlineDataPart _ _ => true | _ => false end.
Definition is_fileData (p : Part) : bool :=
  match p with FileDataPart _ _ => true | _ => false end.

Definition is_video (mimeType : string) : bool := String.prefix "video" mimeType.

Section Readings.

Variable fileTypeFromBuffer : bytes -> promise (option string).
Variable mime_getType : string -> option string.
Variable toBase64 : bytes -> string.
Variable fromBase64 : string -> bytes.
Variable g : Gemini.

(** [formatMap[format] || format] *)
Definition normalize (format : jsval) : jsval :=
  js_or (formatMap (ToString format)) format.

(** Content sniffing settles for a buffer: the detector's promise is
    fulfilled. *)
Definition settles (buffer : bytes) : bool :=
  match fileTypeFromBuffer buffer with
  | Resolves _ => true
  | Rejects _ => false
  end.

(** The type the detector reports, if it settles and reports one. *)
Definition sniffed_type (buffer : bytes) : option string :=
  match fileTypeFromBuffer buffer with
  | Resolves fileType => fileType
  | Rejects _ => None
  end.

(** "A supported type is determined by content sniffing." *)
Definition sniffed_supported (buffer : bytes) : bool :=
  includes supportedFileFormats (normalize (optional_mime (sniffed_type buffer))).

(** "A supported type is determined by extension lookup": there is a
    non-empty path hint and its extension maps to a supported type. *)
Definition extension_supported (filePath : option string) : bool :=
  match filePath with
  | Some p =>
      negb (p =? "")
      && includes supportedFileFormats (normalize (nullable_mime (mime_getType p)))
  | None => false
  end.

(** The MIME type [messageToParts] obtains for a buffer: the value of
    [getFileType(buffer, filePath)] in its default, non-strict mode, when
    that call returns. *)
Definition classify (buffer : bytes) (filePath : option string) : string :=
  match fst (getFileType fileTypeFromBuffer mime_getType buffer filePath
               false (World [] [])) with
  | Ret (JString mimeType) => mimeType
  | _ => "text/plain"
  end.

(** Content sniffing settles for an element, if the loop sniffs it. *)
Definition detected (msg : message) : bool :=
  match binary_input msg with
  | Some (buffer, _) => settles buffer
  | None => true
  end.

(** Whether an element is a binary input classified in the video
    category. *)
Definition video_input (msg : message) : bool :=
  match binary_input msg with
  | Some (buffer, filePath) => is_video (classify buffer filePath)
  | None => false
  end.

(** The sum of the sizes of all binary inputs of a call. *)
Fixpoint totalBytes_of (messages : list message) : Z :=
  match messages with
  | [] => 0
  | msg :: rest =>
      match binary_input msg with
      | Some (buffer, _) => byteLength buffer + totalBytes_of rest
      | None => totalBytes_of rest
      end
  end.

(** The sum of the sizes of the binary inputs that are emitted inline in
    the loop, i.e. of those not classified as video. *)
Fixpoint inlineBytes_of (messages : list message) : Z :=
  match messages with
  | [] => 0
  | msg :: rest =>
      match binary_input msg with
      | Some (buffer, filePath) =>
          if is_video (classify buffer filePath) then inlineBytes_of rest
          else byteLength buffer + inlineBytes_of rest
      | None => inlineBytes_of rest
      end
  end.

(** The part the loop pushes for a handled element, given the URI an
    upload returned (read only for video). *)
Definition part_of (msg : message) (fileURI : string) : Part :=
  match msg with
  | MString s => TextPart s
  | _ =>
      match binary_input msg with
      | Some (buffer, filePath) =>
          let mimeType := classify buffer filePath in
          if is_video mimeType then FileDataPart mimeType fileURI
          else InlineDataPart mimeType (toBase64 buffer)
      | None => TextPart ""
      end
  end.

(** The rest of [messageToParts] once the loop has ended with the
    accumulators [acc]. *)
Definition post_pass (acc : list Part * Z) : M (list Part) :=
  let '(parts, totalBytes) := acc in
  if (SIZE_THRESHOLD <? totalBytes)%Z then
    for_in fromBase64 g (seq 0 (length parts)) parts
  else ret parts.

(** A run of the loop: elements are visited in order; a handled element
    for which content sniffing settles contributes exactly one part, and a
    video one does so through one [uploadFile] on its own bytes; an element
    that is not handled contributes nothing. *)
Inductive assembled : list message -> world -> list Part -> world -> Prop :=
| assembled_nil w :
    assembled [] w [] w
| assembled_skip msg rest w out w' :
    handled msg = false ->
    assembled rest w out w' ->
    assembled (msg :: rest) w out w'
| assembled_direct msg rest w out w' :
    handled msg = true -> detected msg = true -> video_input msg = false ->
    assembled rest w out w' ->
    assembled (msg :: rest) w (part_of msg "" :: out) w'
| assembled_upload msg buffer filePath fileURI rest w w1 out w' :
    binary_input msg = Some (buffer, filePath) ->
    is_video (classify buffer filePath) = true ->
    uploadFile g buffer (classify buffer filePath) w = (Ret fileURI, w1) ->
    assembled rest w1 out w' ->
    assembled (msg :: rest) w
      (FileDataPart (classify buffer filePath) fileURI :: out) w'.

(** A run of the post-pass: parts are visited in order; an inline part is
    decoded, uploaded, and replaced by a file-data part with the same MIME
    type and the URI that upload returned; other parts stay. *)
Inductive promoted : list Part -> world -> list Part -> world -> Prop :=
| promoted_nil w :
    promoted [] w [] w
| promoted_keep p rest w out w' :
    is_inline p = false ->
    promoted rest w out w' ->
    promoted (p :: rest) w (p :: out) w'
| promoted_upload mimeType data fileURI rest w w1 out w' :
    uploadFile g (fromBase64 data) mimeType w = (Ret fileURI, w1) ->
    promoted rest w1 out w' ->
    promoted (InlineDataPart mimeType data :: rest) w
      (FileDataPart mimeType fileURI :: out) w'.

(** The part returned for a handled element: text for a string; for a
    binary input a file-data part if it is video or the call promoted its
    inline parts, an inline part otherwise, with the classified MIME type
    either way. *)
Definition returned_for (promote : bool) (msg : message) (p : Part) : Prop :=
  match msg with
  | MString s => p = TextPart s
  | _ =>
      match binary_input msg with
      | Some (buffer, filePath) =>
          let mimeType := classify buffer filePath in
          if is_video mimeType || promote
          then exists fileURI, p = FileDataPart mimeType fileURI
          else p = InlineDataPart mimeType (toBase64 buffer)
      | None => False
      end
  end.

(** What the post-pass makes of one part. *)
Definition promoted_part (p q : Part) : Prop :=
  match p with
  | InlineDataPart mimeType _ => exists fileURI, q = FileDataPart mimeType fileURI
  | _ => q = p
  end.

End Readings.

(** ** Readings of the event log *)

Definition is_POST (e : event) : bool :=
  match e with Fetch POST _ _ => true | _ => false end.
Definition is_GET (e : event) : bool :=
  match e with Fetch GET _ _ => true | _ => false end.

Definition count_POST (lg : list event) : nat := length (filter is_POST lg).
Definition count_GET (lg : list event) : nat := length (filter is_GET lg).

(** The wait times slept, oldest first. *)
Fixpoint sleeps (lg : list event) : list Q :=
  match lg with
  | [] => []
  | Sleep ms :: rest => ms :: sleeps rest
  | _ :: rest => sleeps rest
  end.

(** A status reply that is neither an error nor ["ACTIVE"]. *)
Definition nonterminal (r : reply) : bool :=
  match r with
  | Body data =>
      match json_error data with
      | Some _ => false
      | None => negb (bool_decide (json_state data = Some "ACTIVE"))
      end
  | Rejected _ => false
  end.

(** The wait slept at the [n]-th turn (from 0) of a loop started at
    [waitTime]. *)
Fixpoint wait_at (waitTime : Q) (n : nat) : Q :=
  match n with
  | O => waitTime
  | S n' => wait_at (Qmin (waitTime * 1.5) MAX_BACKOFF) n'
  end.

(** What [n] consecutive non-terminal turns append to the log. *)
Fixpoint waiting_trace (url : string) (waitTime : Q) (n : nat) : list event :=
  match n with
  | O => []
  | S n' =>
      Fetch GET url None :: Sleep waitTime
        :: waiting_trace url (Qmin (waitTime * 1.5) MAX_BACKOFF) n'
  end.

(** The closed form of the backoff law, for the [N]-th wait, [N >= 1]. *)
Definition backoff (N : nat) : Q :=
  Qmin (250 * 1.5 ^ (Z.of_nat N - 1)) 5000.

(** ** A concrete environment for the worked examples

    Small executable stand-ins for the third-party pieces: magic-number
    sniffing, extension lookup, the base64 codec, and a wrapped client that
    records each exchange in the history array it is handed. *)
Module Demo.

Fixpoint has_prefix (signature buffer : bytes) : bool :=
  match signature, buffer with
  | [], _ => true
  | s :: signature', b :: buffer' =>
      Byte.eqb s b && has_prefix signature' buffer'
  | _ :: _, [] => false
  end.

(** Whether a list has more than [n] elements. *)
Fixpoint longer_than {A} (n : nat) (l : list A) : bool :=
  match l, n with
  | [], _ => false
  | _ :: _, O => true
  | _ :: l', S n' => longer_than n' l'
  end.

(** A big-endian 32-bit length. *)
Definition be32 (a b c d : Byte.byte) : nat :=
  N.to_nat (((Byte.to_N a * 256 + Byte.to_N b) * 256 + Byte.to_N c) * 256
            + Byte.to_N d).

(** The error a tokenizer raises when a read runs past the end of the
    buffer. *)
Definition end_of_stream : exn := Error "End-Of-Stream".

Definition png_signature : bytes :=
  [x89; x50; x4e; x47; x0d; x0a; x1a; x0a].

(** The PNG branch of the detector, from the first chunk on: chunk headers
    (a length and a four-letter type) are read until an [IDAT] or [acTL]
    chunk tells a still image from an animated one; a header that is cut
    short ends the stream. *)
Fixpoint png_chunks (fuel : nat) (rest : bytes) : promise (option string) :=
  match rest with
  | l1 :: l2 :: l3 :: l4 :: t1 :: t2 :: t3 :: t4 :: data =>
      if has_prefix [x49; x44; x41; x54] [t1; t2; t3; t4]
      then Resolves (Some "image/png")
      else if has_prefix [x61; x63; x54; x4c] [t1; t2; t3; t4]
      then Resolves (Some "image/apng")
      else
        let data' := drop (be32 l1 l2 l3 l4 + 4) data in
        match fuel with
        | S fuel' =>
            if longer_than 8 data' then png_chunks fuel' data'
            else Resolves (Some "image/png")
        | O => Resolves (Some "image/png")
        end
  | _ => Rejects end_of_stream
  end.

(** A few of the signatures [file-type] knows. *)
Definition fileTypeFromBuffer (buffer : bytes) : promise (option string) :=
  if has_prefix [xff; xd8; xff] buffer then Resolves (Some "image/jpeg")
  else if has_prefix png_signature buffer
    then png_chunks (length buffer) (drop 8 buffer)
  else if has_prefix [x47; x49; x46] buffer then Resolves (Some "image/gif")
  else if has_prefix [x66; x74; x79; x70; x71; x74] (drop 4 buffer)
    then Resolves (Some "video/quicktime")
  else if has_prefix [x66; x74; x79; x70] (drop 4 buffer)
    then Resolves (Some "video/mp4")
  else if has_prefix [xff; xfb] buffer then Resolves (Some "audio/mpeg")
  else Resolves None.

(** The text after the last dot of a path, if there is a dot. *)
Fixpoint extension (path : string) : option string :=
  match path with
  | EmptyString => None
  | String c rest =>
      match extension rest with
      | Some e => Some e
      | None => if Ascii.eqb c "." then Some rest else None
      end
  end.

(** A few of the extensions [mime-lite] knows. *)
Definition mime_getType (path : string) : option string :=
  match extension path with
  | Some e =>
      if e =? "png" then Some "image/png"
      else if e =? "mov" then Some "video/quicktime"
      else if e =? "mp3" then Some "audio/mpeg"
      else if e =? "md" then Some "text/markdown"
      else if e =? "py" then Some "text/x-python"
      else if e =? "gif" then Some "image/gif"
      else if e =? "zip" then Some "application/zip"
      else None
  | None => None
  end.

Definition alphabet : string :=
  "ABCDEFGHIJKLMNOPQRSTUVWXYZabcdefghijklmnopqrstuvwxyz0123456789+/".

Definition sextet_char (n : N) : ascii :=
  default "="%char (String.get (N.to_nat n) alphabet).

Fixpoint toBase64 (buffer : bytes) : string :=
  match buffer with
  | [] => ""
  | [a] =>
      let n := (Byte.to_N a * 16)%N in
      String (sextet_char (n / 64)) (String (sextet_char (n mod 64)) "==")
  | [a; b] =>
      let n := (Byte.to_N a * 1024 + Byte.to_N b * 4)%N in
      String (sextet_char (n / 4096))
        (String (sextet_char (n / 64 mod 64))
           (String (sextet_char (n mod 64)) "="))
  | a :: b :: c :: rest =>
      let n := (Byte.to_N a * 65536 + Byte.to_N b * 256 + Byte.to_N c)%N in
      String (sextet_char (n / 262144))
        (String (sextet_char (n / 4096 mod 64))
           (String (sextet_char (n / 64 mod 64))
              (String (sextet_char (n mod 64)) (toBase64 rest))))
  end.

Fixpoint index_of (c : ascii) (s : string) (i : N) : option N :=
  match s with
  | EmptyString => None
  | String c' rest => if Ascii.eqb c c' then Some i else index_of c rest (i + 1)%N
  end.

(** Sextets up to the first padding character; other characters are
    ignored, as Node does. *)
Fixpoint sextets (s : string) : list N :=
  match s with
  | EmptyString => []
  | String c rest =>
      if Ascii.eqb c "=" then []
      else match index_of c alphabet 0 with
           | Some n => n :: sextets rest
           | None => sextets rest
           end
  end.

Definition to_byte (n : N) : Byte.byte := default x00 (Byte.of_N (n mod 256)).

Fixpoint from_sextets (l : list N) : bytes :=
  match l with
  | a :: b :: c :: d :: rest =>
      let n := (a * 262144 + b * 4096 + c * 64 + d)%N in
      to_byte (n / 65536) :: to_byte (n / 256) :: to_byte n
        :: from_sextets rest
  | [a; b; c] =>
      let n := (a * 4096 + b * 64 + c)%N in
      [to_byte (n / 1024); to_byte (n / 4)]
  | [a; b] => [to_byte ((a * 64 + b) / 16)]
  | _ => []
  end.

Definition fromBase64 (s : string) : bytes := from_sextets (sextets s).

Definition gemini : Gemini := new_Gemini "KEY" None.

(** Buffers: a one-pixel PNG image, the [ftyp] boxes of a QuickTime and
    of an MP4 file, a GIF header, an MPEG audio frame header, and text. *)
Definition png : bytes :=
  [x89; x50; x4e; x47; x0d; x0a; x1a; x0a; x00; x00; x00; x0d; x49; x48;
   x44; x52; x00; x00; x00; x01; x00; x00; x00; x01; x08; x00; x00; x00;
   x00; x3a; x7e; x9b; x55; x00; x00; x00; x0a; x49; x44; x41; x54; x78;
   x9c; x63; x60; x00; x00; x00; x02; x00; x01; xe2; x21; xbc; x33; x00;
   x00; x00; x00; x49; x45; x4e; x44; xae; x42; x60; x82].
Definition quicktime : bytes :=
  [x00; x00; x00; x14; x66; x74; x79; x70; x71; x74; x20; x20; x00; x00;
   x00; x00; x71; x74; x20; x20].
Definition mp4 : bytes :=
  [x00; x00; x00; x18; x66; x74; x79; x70; x6d; x70; x34; x32; x00; x00;
   x00; x00; x6d; x70; x34; x32; x69; x73; x6f; x6d].
Definition gif : bytes :=
  [x47; x49; x46; x38; x39; x61; x01; x00; x01; x00; x00; x00; x00; x3b].
Definition mp3 : bytes :=
  [xff; xfb; x90; x00; x00; x00; x00; x00; x00; x00; x00; x00].
Definition plain : bytes := [x68; x69; x0a].

(** A PNG file cut right after its signature. *)
Definition truncated_png : bytes := png_signature.

(** A PNG image above the size threshold: the signature, the header chunk
    and the start of an image data chunk of [SIZE_THRESHOLD] bytes. *)
Definition big_png_head : bytes :=
  [x89; x50; x4e; x47; x0d; x0a; x1a; x0a; x00; x00; x00; x0d; x49; x48;
   x44; x52; x00; x00; x00; x01; x00; x00; x00; x01; x08; x00; x00; x00;
   x00; x3a; x7e; x9b; x55; x01; x40; x00; x00; x49; x44; x41; x54].
Definition big_png : bytes :=
  big_png_head ++ repeat x00 (Z.to_nat SIZE_THRESHOLD).

(** Replies of the service. *)
Definition uploaded : reply :=
  Body {| json_file := Some (FileInfo "files/abc" "https://files.example/abc");
          json_error := None; json_state := Some "PROCESSING" |}.
Definition processing : reply :=
  Body {| json_file := None; json_error := None;
          json_state := Some "PROCESSING" |}.
Definition active : reply :=
  Body {| json_file := None; json_error := None;
          json_state := Some "ACTIVE" |}.
Definition failed : reply :=
  Body {| json_file := None; json_error := Some "quota exceeded";
          json_state := None |}.

Definition idle : world := {| pending := []; log := [] |}.

(** A wrapped client that, like the official one, pushes the user turn
    and the model's answer onto the history array it was given. *)
Definition sendMessage (params : StartChatParams unit unit)
    (ps : list Part) (h : heap) : outcome string * heap :=
  (Ret "ok",
   push (sc_history _ _ params) {| role := "model"; parts := [TextPart "ok"] |}
     (push (sc_history _ _ params) {| role := "user"; parts := ps |} h)).

Definition hello : Content :=
  {| role := "user"; parts := [TextPart "Hello, how are you?"] |}.
Definition fine : Content :=
  {| role := "model"; parts := [TextPart "I am doing well."] |}.

Definition chat : Chat unit unit :=
  {| chat_gemini := gemini; chat_history := 0%nat;
     chat_options := no_options unit unit |}.

End Demo.


(** ** Readings of the upload traffic *)

(** The payloads of the upload requests of a log, oldest first: the
    declared MIME type and the bytes sent. *)
Fixpoint posts (lg : list event) : list (string * bytes) :=
  match lg with
  | [] => []
  | Fetch POST _ (Some payload) :: rest => payload :: posts rest
  | _ :: rest => posts rest
  end.

(** What the post-pass uploads for a list of parts: each inline part,
    decoded. *)
Fixpoint inline_payloads (fromBase64 : string -> bytes) (parts : list Part)
    : list (string * bytes) :=
  match parts with
  | [] => []
  | InlineDataPart mimeType data :: rest =>
      (mimeType, fromBase64 data) :: inline_payloads fromBase64 rest
  | _ :: rest => inline_payloads fromBase64 rest
  end.

(** The replies of a service that is ready at once, for [n] uploads: each
    upload is answered by [up], its first status query by [ok]. *)
Fixpoint ready_service (up ok : json) (n : nat) : list reply :=
  match n with
  | O => []
  | S n' => Body up :: Body ok :: ready_service up ok n'
  end.

Section Traffic.

Variable fileTypeFromBuffer : bytes -> promise (option string).
Variable mime_getType : string -> option string.

(** The binary inputs of a call, each with its classified type, split by
    the test of the loop body: the video ones and the others. *)
Fixpoint video_inputs (messages : list message) : list (string * bytes) :=
  match messages with
  | [] => []
  | msg :: rest =>
      match binary_input msg with
      | Some (buffer, filePath) =>
          let mimeType := classify fileTypeFromBuffer mime_getType buffer filePath in
          if is_video mimeType then (mimeType, buffer) :: video_inputs rest
          else video_inputs rest
      | None => video_inputs rest
      end
  end.

Fixpoint inline_inputs (messages : list message) : list (string * bytes) :=
  match messages with
  | [] => []
  | msg :: rest =>
      match binary_input msg with
      | Some (buffer, filePath) =>
          let mimeType := classify fileTypeFromBuffer mime_getType buffer filePath in
          if is_video mimeType then inline_inputs rest
          else (mimeType, buffer) :: inline_inputs rest
      | None => inline_inputs rest
      end
  end.

End Traffic.

(** ** Readings of the session *)

Section SessionReadings.

Variables GenerationConfig SafetySetting : Type.

(** The parameters the wrapped client receives from [ask] and [askStream]
    for given options, once the history array is settled. *)
Definition ask_params (g : Gemini)
    (options : AskOptions GenerationConfig SafetySetting) (history : ref)
    : StartChatParams GenerationConfig SafetySetting :=
  {| sc_model := read (opt_model _ _ options);
     sc_apiVersion := apiVersion g;
     sc_history := history;
     sc_generationConfig := read (opt_generationConfig _ _ options);
     sc_safetySettings := read (opt_safetySettings _ _ options);
     sc_systemInstruction := read (opt_systemInstruction _ _ options) |}.

(** [appendMessage] called for each message of a list, in order. *)
Definition appendMessages (c : Chat GenerationConfig SafetySetting)
    (messages : list Content) (h : heap) : heap :=
  fold_left (fun h message => appendMessage _ _ c message h) messages h.

End SessionReadings.

(** * Properties of the classifier *)

Section ClassifierFacts.

Variable fileTypeFromBuffer : bytes -> promise (option string).
Variable mime_getType : string -> option string.

Local Abbreviation getFileType' := (getFileType fileTypeFromBuffer mime_getType).
Local Abbreviation sniffed := (sniffed_supported fileTypeFromBuffer).
Local Abbreviation by_extension := (extension_supported mime_getType).

Lemma includes_string (l : list string) (v : jsval) :
  includes l v = true -> exists s, v = JString s /\ In s l.
Proof.
  destruct v as [| |s|]; simpl; try discriminate.
  intros H. apply existsb_exists in H as (x & Hin & Heq).
  apply String.eqb_eq in Heq. subst x. eauto.
Qed.

Lemma text_plain_supported : In "text/plain" supportedFileFormats.
Proof. unfold supportedFileFormats. simpl. tauto. Qed.

(** [getFileType] read as a decision list: the detector's rejection if it
    rejects; else the sniffed type if supported, else the extension's type
    if supported, else the strict failure or the default.  The world is
    handed back as it was received. *)
Lemma getFileType_cases (buffer : bytes) (filePath : option string)
    (strict : bool) (w : world) :
  getFileType' buffer filePath strict w =
    (match fileTypeFromBuffer buffer with
     | Rejects e => Throw e
     | Resolves _ =>
         if sniffed buffer then
           Ret (normalize (optional_mime (sniffed_type fileTypeFromBuffer buffer)))
         else if by_extension filePath then
           Ret (normalize (nullable_mime (mime_getType (default "" filePath))))
         else if strict then Throw (Error unsupported_format_message)
         else Ret (JString "text/plain")
     end, w).
Proof.
  unfold getFileType, sniffed_supported, sniffed_type, extension_supported,
    normalize, await, bind, ret, throw.
  destruct (fileTypeFromBuffer buffer) as [fileType|e]; [|reflexivity].
  destruct (includes supportedFileFormats
              (js_or (formatMap (ToString (optional_mime fileType)))
                 (optional_mime fileType))) eqn:Hsniff;
    cbn [negb andb]; [reflexivity|].
  destruct filePath as [p|]; simpl; [|destruct strict; reflexivity].
  destruct (negb (p =? "")); simpl; [|destruct strict; reflexivity].
  destruct (includes supportedFileFormats
              (js_or (formatMap (ToString (nullable_mime (mime_getType p))))
                 (nullable_mime (mime_getType p)))); simpl;
    [reflexivity|destruct strict; reflexivity].
Qed.

(** A rejection of the detector is the rejection of [getFileType], in
    either mode and with any path hint. *)
Lemma getFileType_rejects (buffer : bytes) (filePath : option string)
    (strict : bool) (w : world) (e : exn) :
  fileTypeFromBuffer buffer = Rejects e ->
  getFileType' buffer filePath strict w = (Throw e, w).
Proof. intros H. rewrite getFileType_cases, H. reflexivity. Qed.

(** Whatever [getFileType] returns is a string of the supported set. *)
Lemma getFileType_supported (buffer : bytes) (filePath : option string)
    (strict : bool) (w w' : world) (v : jsval) :
  getFileType' buffer filePath strict w = (Ret v, w') ->
  exists s, v = JString s /\ In s supportedFileFormats.
Proof.
  rewrite getFileType_cases.
  destruct (fileTypeFromBuffer buffer) as [fileType|e] eqn:Hd; [|discriminate].
  destruct (sniffed buffer) eqn:Hs.
  { intros [= <- _]. apply includes_string, Hs. }
  destruct (by_extension filePath) eqn:He.
  { intros [= <- _]. apply includes_string.
    unfold extension_supported in He. destruct filePath as [p|]; [|discriminate].
    apply andb_prop in He as [_ He]. exact He. }
  destruct strict; [discriminate|].
  intros [= <- _]. eauto using text_plain_supported.
Qed.

(** In the default mode the call returns whenever content sniffing
    settles, and what it returns is [classify]. *)
Lemma getFileType_classify (buffer : bytes) (filePath : option string)
    (w : world) :
  settles fileTypeFromBuffer buffer = true ->
  getFileType' buffer filePath false w =
    (Ret (JString (classify fileTypeFromBuffer mime_getType buffer filePath)), w)
  /\ In (classify fileTypeFromBuffer mime_getType buffer filePath)
        supportedFileFormats.
Proof.
  intros Hsettles. unfold classify.
  destruct (getFileType' buffer filePath false (World [] [])) as [r w0] eqn:H0.
  assert (Hsame : getFileType' buffer filePath false w = (r, w)).
  { rewrite getFileType_cases in H0 |- *. congruence. }
  rewrite Hsame. cbn [fst].
  destruct r as [v|e|].
  - destruct (getFileType_supported _ _ _ _ _ _ H0) as (s & -> & Hin). auto.
  - rewrite getFileType_cases in H0. unfold settles in Hsettles.
    destruct (fileTypeFromBuffer buffer); [|discriminate].
    destruct (sniffed buffer), (by_extension filePath); discriminate.
  - rewrite getFileType_cases in H0.
    destruct (fileTypeFromBuffer buffer); [|discriminate].
    destruct (sniffed buffer), (by_extension filePath); discriminate.
Qed.

(** Only a buffer for which content sniffing settles is classified as
    video. *)
Lemma video_settles (buffer : bytes) (filePath : option string) :
  is_video (classify fileTypeFromBuffer mime_getType buffer filePath) = true ->
  settles fileTypeFromBuffer buffer = true.
Proof.
  unfold classify, settles. rewrite getFileType_cases.
  destruct (fileTypeFromBuffer buffer); [reflexivity|discriminate].
Qed.

(** C4. Whenever content sniffing settles for the buffer: with strict mode
    on and no supported type determined by sniffing or by extension lookup,
    [getFileType] fails with the unsupported-format error; with strict mode
    off it returns a member of the supported set, which is ["text/plain"]
    when nothing was determined.  When content sniffing rejects,
    [getFileType] rejects with the detector's error in either mode. *)
Theorem getFileType_strict_or_default (buffer : bytes)
    (filePath : option string) (w : world) :
  (settles fileTypeFromBuffer buffer = true ->
   (sniffed buffer = false -> by_extension filePath = false ->
    getFileType' buffer filePath true w
      = (Throw (Error unsupported_format_message), w))
   /\ (exists s,
         getFileType' buffer filePath false w = (Ret (JString s), w)
         /\ In s supportedFileFormats
         /\ (sniffed buffer = false -> by_extension filePath = false ->
             s = "text/plain")))
  /\ (forall (e : exn) (strict : bool),
        fileTypeFromBuffer buffer = Rejects e ->
        getFileType' buffer filePath strict w = (Throw e, w)).
Proof.
  split; [|intros e strict He; apply getFileType_rejects, He].
  intros Hsettles. split.
  - intros Hs He. rewrite getFileType_cases, Hs, He.
    unfold settles in Hsettles.
    destruct (fileTypeFromBuffer buffer); [reflexivity|discriminate].
  - destruct (getFileType_classify buffer filePath w Hsettles) as [Hrun Hin].
    eexists. split; [exact Hrun|]. split; [exact Hin|].
    intros Hs He. rewrite getFileType_cases, Hs, He in Hrun.
    destruct (fileTypeFromBuffer buffer); congruence.
Qed.


End ClassifierFacts.

(** * Properties of [uploadFile] and its polling loop *)

Section PollerFacts.

Variable g : Gemini.

(** One turn on a non-terminal reply: the query, then the wait. *)
Lemma poll_once_nonterminal (f : file_info) (waitTime : Q) (r : reply)
    (rest : list reply) (lg : list event) :
  nonterminal r = true ->
  poll_once g (Some f) waitTime (World (r :: rest) lg) =
    (Ret (Some (Qmin (waitTime * 1.5) MAX_BACKOFF)),
     World rest ((lg ++ [Fetch GET (status_url g (file_name f)) None])
                   ++ [Sleep waitTime])).
Proof.
  destruct r as [msg|data]; simpl; [discriminate|].
  unfold poll_once, try_catch, bind, read_field, ret, fetch, emit. simpl.
  destruct (json_error data); [discriminate|].
  destruct (bool_decide (json_state data = Some "ACTIVE")); [discriminate|].
  reflexivity.
Qed.

(** One turn on an error reply: the query, then the failure, which carries
    the message of the service. *)
Lemma poll_once_error (f : file_info) (waitTime : Q) (data : json)
    (m : string) (rest : list reply) (lg : list event) :
  json_error data = Some m ->
  poll_once g (Some f) waitTime (World (Body data :: rest) lg) =
    (Throw (Error (upload_error_prefix +:+ api_error_prefix +:+ m)),
     World rest (lg ++ [Fetch GET (status_url g (file_name f)) None])).
Proof.
  intros He.
  unfold poll_once, try_catch, bind, read_field, ret, fetch, throw. simpl.
  rewrite He. reflexivity.
Qed.

(** One turn on an ["ACTIVE"] reply: the query, then the [break]. *)
Lemma poll_once_active (f : file_info) (waitTime : Q) (data : json)
    (rest : list reply) (lg : list event) :
  json_error data = None -> json_state data = Some "ACTIVE" ->
  poll_once g (Some f) waitTime (World (Body data :: rest) lg) =
    (Ret None, World rest (lg ++ [Fetch GET (status_url g (file_name f)) None])).
Proof.
  intros He Hs.
  unfold poll_once, try_catch, bind, read_field, ret, fetch. simpl.
  rewrite He, Hs. reflexivity.
Qed.

(** What one turn can do to the world: nothing, or one status query,
    possibly followed by one wait; it consumes at most one reply, and one
    exactly when it asks for another turn. *)
Lemma poll_once_world (fileSendData : option file_info) (waitTime : Q)
    (w : world) :
  let r := poll_once g fileSendData waitTime w in
  (exists ev, log (snd r) = log w ++ ev /\ count_POST ev = 0%nat)
  /\ (forall next, fst r = Ret (Some next) ->
      exists x, pending w = x :: pending (snd r)).
Proof.
  destruct w as [script lg].
  unfold poll_once, try_catch, bind, read_field, ret, fetch, throw, emit.
  destruct fileSendData as [f|]; simpl.
  2:{ split; [exists []; rewrite app_nil_r; auto|discriminate]. }
  destruct script as [|[msg|data] rest]; simpl.
  - split; [eexists; split; [reflexivity|reflexivity]|discriminate].
  - split; [eexists; split; [reflexivity|reflexivity]|discriminate].
  - destruct (json_error data); simpl.
    + split; [eexists; split; [reflexivity|reflexivity]|discriminate].
    + destruct (bool_decide (json_state data = Some "ACTIVE")); simpl.
      * split; [eexists; split; [reflexivity|reflexivity]|discriminate].
      * split; [|eauto].
        eexists. split; [rewrite <- app_assoc; reflexivity|reflexivity].
Qed.

(** The loop only ever appends status queries and waits to the log. *)
Lemma poll_log (fuel : nat) (fileSendData : option file_info) (waitTime : Q)
    (w : world) :
  exists ev, log (snd (poll fuel g fileSendData waitTime w)) = log w ++ ev
             /\ count_POST ev = 0%nat.
Proof.
  revert waitTime w. induction fuel as [|fuel IH]; intros waitTime w.
  - exists []. simpl. rewrite app_nil_r. auto.
  - simpl. unfold bind.
    destruct (poll_once_world fileSendData waitTime w) as [(ev & Hev & Hc) _].
    destruct (poll_once g fileSendData waitTime w) as [[[next|]|e|] w1];
      simpl in Hev |- *; eauto.
    destruct (IH next w1) as (ev' & Hev' & Hc').
    exists (ev ++ ev'). rewrite Hev', Hev, app_assoc. split; [reflexivity|].
    unfold count_POST in *. rewrite filter_app, length_app. lia.
Qed.

(** With more turns allowed than replies left, the loop never stops for
    want of turns: allowing more changes nothing. *)
Lemma poll_fuel (fuel fuel' : nat) (fileSendData : option file_info)
    (waitTime : Q) (w : world) :
  (length (pending w) < fuel)%nat -> (length (pending w) < fuel')%nat ->
  poll fuel g fileSendData waitTime w = poll fuel' g fileSendData waitTime w.
Proof.
  revert fuel' waitTime w.
  induction fuel as [|fuel IH]; intros fuel' waitTime w H1 H2; [lia|].
  destruct fuel' as [|fuel']; [lia|]. simpl. unfold bind.
  destruct (poll_once_world fileSendData waitTime w) as [_ Hp].
  destruct (poll_once g fileSendData waitTime w) as [[[next|]|e|] w1];
    try reflexivity.
  destruct (Hp next eq_refl) as (x & Hx). simpl in Hx.
  apply IH; rewrite Hx in *; simpl in *; lia.
Qed.

(** The loop is left pending only when the service has nothing more to
    say: the bound on the number of turns is never what stops it. *)
Lemma poll_awaiting (fuel : nat) (fileSendData : option file_info)
    (waitTime : Q) (w : world) :
  (length (pending w) < fuel)%nat ->
  fst (poll fuel g fileSendData waitTime w) = Awaiting ->
  pending (snd (poll fuel g fileSendData waitTime w)) = [].
Proof.
  revert waitTime w. induction fuel as [|fuel IH]; intros waitTime w Hf; [lia|].
  cbn [poll]. unfold bind.
  destruct (poll_once_world fileSendData waitTime w) as [_ Hp].
  destruct (poll_once g fileSendData waitTime w) as [[[next|]|e|] w1] eqn:Honce;
    cbn [fst snd]; try discriminate.
  - destruct (Hp next eq_refl) as (x & Hx). cbn [snd] in Hx.
    apply IH. rewrite Hx in Hf. simpl in Hf. lia.
  - intros _. revert Honce.
    unfold poll_once, try_catch, bind, read_field, ret, fetch, throw, emit.
    destruct fileSendData as [f|]; [|discriminate].
    destruct w as [[|[msg|data] rest] lg]; cbn [pending log].
    + intros [= <-]. reflexivity.
    + discriminate.
    + destruct (json_error data); [discriminate|].
      destruct (bool_decide _); discriminate.
Qed.

(** Through a run of non-terminal replies the loop performs, for each, one
    query and one wait, and goes on with the rest of the script. *)
Lemma poll_waiting (f : file_info) (waiting rest : list reply) (fuel : nat)
    (waitTime : Q) (lg : list event) :
  forallb nonterminal waiting = true ->
  poll (length waiting + fuel) g (Some f) waitTime (World (waiting ++ rest) lg)
  = poll fuel g (Some f) (wait_at waitTime (length waiting))
      (World rest
         (lg ++ waiting_trace (status_url g (file_name f)) waitTime
                  (length waiting))).
Proof.
  revert waitTime lg.
  induction waiting as [|r waiting IH]; intros waitTime lg Hn; simpl.
  - rewrite app_nil_r. reflexivity.
  - simpl in Hn. apply andb_prop in Hn as [Hr Hn].
    unfold bind at 1. rewrite poll_once_nonterminal by exact Hr.
    rewrite IH by exact Hn. f_equal. f_equal.
    rewrite <- !app_assoc. reflexivity.
Qed.

End PollerFacts.

Section BackoffFacts.

Variable g : Gemini.

Lemma sleeps_app (a b : list event) : sleeps (a ++ b) = sleeps a ++ sleeps b.
Proof.
  induction a as [|[m url payload|ms] a IH]; simpl; [reflexivity|exact IH|].
  rewrite IH. reflexivity.
Qed.

Lemma sleeps_waiting_trace (url : string) (n i : nat) (waitTime : Q) :
  (i < n)%nat ->
  sleeps (waiting_trace url waitTime n) !! i = Some (wait_at waitTime i).
Proof.
  revert waitTime i. induction n as [|n IH]; intros waitTime i Hi; [lia|].
  destruct i as [|i]; simpl; [reflexivity|]. apply IH. lia.
Qed.

Lemma count_GET_waiting_trace (url : string) (n : nat) (waitTime : Q) :
  count_GET (waiting_trace url waitTime n) = n.
Proof.
  revert waitTime. induction n as [|n IH]; intros waitTime; [reflexivity|].
  unfold count_GET in *. simpl. rewrite IH. reflexivity.
Qed.

Lemma count_GET_app (a b : list event) :
  count_GET (a ++ b) = (count_GET a + count_GET b)%nat.
Proof. unfold count_GET. rewrite filter_app, length_app. reflexivity. Qed.

Lemma count_POST_app (a b : list event) :
  count_POST (a ++ b) = (count_POST a + count_POST b)%nat.
Proof. unfold count_POST. rewrite filter_app, length_app. reflexivity. Qed.

(** One update of the wait time, in closed form. *)
Lemma next_wait_closed (waitTime : Q) (k : Z) :
  (0 <= k)%Z ->
  (waitTime == Qmin (250 * 1.5 ^ k) 5000)%Q ->
  (Qmin (waitTime * 1.5) MAX_BACKOFF == Qmin (250 * 1.5 ^ (k + 1)) 5000)%Q.
Proof.
  intros Hk Hw. unfold MAX_BACKOFF.
  rewrite Qpower_plus by discriminate.
  change (1.5 ^ 1)%Q with 1.5%Q.
  set (P := (1.5 ^ k)%Q) in *.
  destruct (Q.min_spec (250 * P) 5000) as [[H1 E1]|[H1 E1]];
    destruct (Q.min_spec (waitTime * 1.5) 5000) as [[H2 E2]|[H2 E2]];
    destruct (Q.min_spec (250 * (P * 1.5)) 5000) as [[H3 E3]|[H3 E3]];
    rewrite E2, E3; rewrite E1 in Hw; lra.
Qed.

Lemma wait_at_closed (n : nat) (k : Z) (waitTime : Q) :
  (0 <= k)%Z ->
  (waitTime == Qmin (250 * 1.5 ^ k) 5000)%Q ->
  (wait_at waitTime n == Qmin (250 * 1.5 ^ (k + Z.of_nat n)) 5000)%Q.
Proof.
  revert k waitTime. induction n as [|n IH]; intros k waitTime Hk Hw.
  - simpl. rewrite Z.add_0_r. exact Hw.
  - cbn [wait_at]. replace (k + Z.of_nat (S n))%Z with ((k + 1) + Z.of_nat n)%Z by lia.
    apply IH; [lia|]. apply next_wait_closed; assumption.
Qed.

(** The [N]-th wait of the loop is the closed form of the backoff law. *)
Lemma wait_at_backoff (N : nat) :
  (1 <= N)%nat -> (wait_at INITIAL_WAIT (N - 1) == backoff N)%Q.
Proof.
  intros HN. unfold backoff.
  replace (Z.of_nat N - 1)%Z with (0 + Z.of_nat (N - 1))%Z by lia.
  apply wait_at_closed; [lia|]. reflexivity.
Qed.

(** The wait times are multiples of 1/256 below 2^53 / 256, so the
    binary64 arithmetic of the source computes them without rounding and
    the rationals of the model are the numbers of the program. *)
Lemma wait_at_dyadic (n : nat) :
  exists m : Z, (wait_at INITIAL_WAIT n == m # 256)%Q /\ (0 < m <= 1280000)%Z.
Proof.
  assert (Hcap : forall k x, (x == 5000)%Q -> (wait_at x k == 5000)%Q).
  { induction k as [|k IH]; intros x Hx; [exact Hx|]. cbn [wait_at].
    apply IH. unfold MAX_BACKOFF.
    destruct (Q.min_spec (x * 1.5) 5000) as [[H E]|[H E]]; rewrite E; lra. }
  destruct n as [|n]; [exists 64000%Z; split; [vm_compute; reflexivity|lia]|].
  destruct n as [|n]; [exists 96000%Z; split; [vm_compute; reflexivity|lia]|].
  destruct n as [|n]; [exists 144000%Z; split; [vm_compute; reflexivity|lia]|].
  destruct n as [|n]; [exists 216000%Z; split; [vm_compute; reflexivity|lia]|].
  destruct n as [|n]; [exists 324000%Z; split; [vm_compute; reflexivity|lia]|].
  destruct n as [|n]; [exists 486000%Z; split; [vm_compute; reflexivity|lia]|].
  destruct n as [|n]; [exists 729000%Z; split; [vm_compute; reflexivity|lia]|].
  destruct n as [|n]; [exists 1093500%Z; split; [vm_compute; reflexivity|lia]|].
  exists 1280000%Z. split; [|lia]. cbn [wait_at].
  transitivity 5000%Q; [apply Hcap|]; vm_compute; reflexivity.
Qed.

End BackoffFacts.

Section UploadFacts.

Variable g : Gemini.

(** After an upload response that names the file, [uploadFile] is the
    polling loop followed by the return of the file's URI. *)
Lemma uploadFile_started (file : bytes) (mimeType : string) (up : json)
    (f : file_info) (script : list reply) (lg : list event) :
  json_file up = Some f ->
  uploadFile g file mimeType (World (Body up :: script) lg) =
    match poll (S (length script)) g (Some f) INITIAL_WAIT
            (World script
               (lg ++ [Fetch POST (upload_url g) (Some (mimeType, file))])) with
    | (Ret _, w') => (Ret (file_uri f), w')
    | (Throw e, w') => (Throw e, w')
    | (Awaiting, w') => (Awaiting, w')
    end.
Proof.
  intros Hf. unfold uploadFile, bind at 1, fetch. cbn [pending log].
  rewrite Hf. unfold bind, poll_until_active. cbn [pending].
  destruct (poll _ _ _ _ _) as [[[]|e|] w']; reflexivity.
Qed.

(** Every run of [uploadFile] issues exactly one upload request. *)
Lemma uploadFile_one_POST (file : bytes) (mimeType : string) (w : world) :
  count_POST (log (snd (uploadFile g file mimeType w)))
  = S (count_POST (log w)).
Proof.
  destruct w as [script lg].
  assert (Hone : forall ev, count_POST ev = 0%nat ->
            count_POST
              ((lg ++ [Fetch POST (upload_url g) (Some (mimeType, file))]) ++ ev)
            = S (count_POST lg)).
  { intros ev Hev. rewrite !count_POST_app, Hev. cbn. lia. }
  destruct script as [|[msg|up] script].
  - unfold uploadFile, bind, fetch. cbn. rewrite <- (app_nil_r (lg ++ _)).
    apply Hone. reflexivity.
  - unfold uploadFile, bind, fetch. cbn. rewrite <- (app_nil_r (lg ++ _)).
    apply Hone. reflexivity.
  - unfold uploadFile, bind at 1, fetch. cbn [pending log].
    unfold bind, poll_until_active. cbn [pending].
    match goal with |- context [poll ?n g ?d ?t ?w0] =>
      destruct (poll_log g n d t w0) as (ev & Hev & Hc);
      destruct (poll n g d t w0) as [[[]|e|] w'] end;
      cbn [snd log] in Hev |- *.
    + unfold read_field. destruct (json_file up); cbn [snd ret throw];
        rewrite Hev; apply Hone, Hc.
    + rewrite Hev; apply Hone, Hc.
    + rewrite Hev; apply Hone, Hc.
Qed.

(** An upload whose status queries are answered by non-terminal replies
    and then by an error: the exact outcome and the exact final world. *)
Lemma uploadFile_error (file : bytes) (mimeType : string) (up err : json)
    (f : file_info) (m : string) (waiting rest : list reply)
    (lg : list event) :
  json_file up = Some f ->
  forallb nonterminal waiting = true ->
  json_error err = Some m ->
  uploadFile g file mimeType
    (World (Body up :: waiting ++ Body err :: rest) lg)
  = (Throw (Error (upload_error_prefix +:+ api_error_prefix +:+ m)),
     World rest
       (((lg ++ [Fetch POST (upload_url g) (Some (mimeType, file))])
           ++ waiting_trace (status_url g (file_name f)) INITIAL_WAIT
                (length waiting))
          ++ [Fetch GET (status_url g (file_name f)) None])).
Proof.
  intros Hf Hwait He.
  rewrite (uploadFile_started _ _ _ _ _ _ Hf).
  replace (S (length (waiting ++ Body err :: rest)))
    with (length waiting + S (S (length rest)))%nat
    by (rewrite length_app; simpl; lia).
  rewrite poll_waiting by exact Hwait.
  cbn [poll]. unfold bind at 1.
  rewrite (poll_once_error _ _ _ _ _ _ _ He). reflexivity.
Qed.

(** An upload whose status queries are answered by non-terminal replies
    and then by ["ACTIVE"]: [uploadFile] returns the URI of the file, having
    consumed exactly these replies. *)
Lemma uploadFile_active (file : bytes) (mimeType : string) (up ok : json)
    (f : file_info) (waiting rest : list reply) (lg : list event) :
  json_file up = Some f ->
  forallb nonterminal waiting = true ->
  json_error ok = None -> json_state ok = Some "ACTIVE" ->
  uploadFile g file mimeType
    (World (Body up :: waiting ++ Body ok :: rest) lg)
  = (Ret (file_uri f),
     World rest
       (((lg ++ [Fetch POST (upload_url g) (Some (mimeType, file))])
           ++ waiting_trace (status_url g (file_name f)) INITIAL_WAIT
                (length waiting))
          ++ [Fetch GET (status_url g (file_name f)) None])).
Proof.
  intros Hf Hwait He Hs.
  rewrite (uploadFile_started _ _ _ _ _ _ Hf).
  replace (S (length (waiting ++ Body ok :: rest)))
    with (length waiting + S (S (length rest)))%nat
    by (rewrite length_app; simpl; lia).
  rewrite poll_waiting by exact Hwait.
  cbn [poll]. unfold bind at 1.
  rewrite (poll_once_active _ _ _ _ _ _ He Hs). reflexivity.
Qed.

(** C6. While the status queries of an upload observe neither an active
    state nor an error, the wait slept after the [N]-th of them is
    [min(250 * 1.5^(N-1), 5000)] milliseconds. *)
Theorem backoff_law (file : bytes) (mimeType : string) (up : json)
    (f : file_info) (waiting rest : list reply) (lg : list event) (N : nat) :
  json_file up = Some f ->
  forallb nonterminal waiting = true ->
  (1 <= N <= length waiting)%nat ->
  exists q : Q,
    sleeps (log (snd (uploadFile g file mimeType
                        (World (Body up :: waiting ++ rest) lg))))
      !! (length (sleeps lg) + (N - 1))%nat = Some q
    /\ (q == backoff N)%Q.
Proof.
  intros Hf Hwait HN.
  exists (wait_at INITIAL_WAIT (N - 1)). split; [|apply wait_at_backoff; lia].
  rewrite (uploadFile_started _ _ _ _ _ _ Hf).
  replace (S (length (waiting ++ rest)))
    with (length waiting + S (length rest))%nat by (rewrite length_app; lia).
  rewrite poll_waiting by exact Hwait.
  match goal with |- context [poll ?n g ?d ?t ?w0] =>
    destruct (poll_log g n d t w0) as (ev & Hev & _);
    destruct (poll n g d t w0) as [[[]|e|] w'] end;
    cbn [snd log] in Hev |- *; rewrite Hev, !sleeps_app; cbn [sleeps];
    rewrite app_nil_r, <- app_assoc, lookup_app_r by lia;
    replace (length (sleeps lg) + (N - 1) - length (sleeps lg))%nat
      with (N - 1)%nat by lia;
    apply lookup_app_l_Some, sleeps_waiting_trace; lia.
Qed.

(** C7. When a status query is answered with an error, [uploadFile] fails
    at once with an error that carries the service's message and consumes
    no further reply: the status queries made are the ones answered so far.
    The status query is the only request repeated: every run of
    [uploadFile], however it ends, issues its upload request exactly
    once. *)
Theorem upload_fails_fast_and_posts_once (file : bytes) (mimeType : string)
    (up err : json) (f : file_info) (m : string) (waiting rest : list reply)
    (lg : list event) :
  json_file up = Some f ->
  forallb nonterminal waiting = true ->
  json_error err = Some m ->
  let r := uploadFile g file mimeType
             (World (Body up :: waiting ++ Body err :: rest) lg) in
  fst r = Throw (Error (upload_error_prefix +:+ api_error_prefix +:+ m))
  /\ pending (snd r) = rest
  /\ count_GET (log (snd r)) = (count_GET lg + length waiting + 1)%nat
  /\ forall w : world,
       count_POST (log (snd (uploadFile g file mimeType w)))
       = S (count_POST (log w)).
Proof.
  intros Hf Hwait He. cbv zeta.
  rewrite (uploadFile_error _ _ _ _ _ _ _ _ _ Hf Hwait He).
  cbn [fst snd pending log]. split; [reflexivity|]. split; [reflexivity|].
  split; [|apply uploadFile_one_POST].
  rewrite !count_GET_app, count_GET_waiting_trace. cbn. lia.
Qed.

End UploadFacts.

(** An upload answered by three "still processing" replies: the third wait
    is the one the backoff law gives for [N = 3]. *)
Lemma backoff_law_witness :
  exists q : Q,
    sleeps (log (snd (uploadFile Demo.gemini Demo.png "image/png"
                        (World (Demo.uploaded
                                  :: [Demo.processing; Demo.processing;
                                      Demo.processing] ++ [Demo.active]) []))))
      !! (length (sleeps []) + (3 - 1))%nat = Some q
    /\ (q == backoff 3)%Q.
Proof.
  apply (backoff_law Demo.gemini Demo.png "image/png" _
           (FileInfo "files/abc" "https://files.example/abc")
           [Demo.processing; Demo.processing; Demo.processing] [Demo.active]
           [] 3).
  - reflexivity.
  - reflexivity.
  - simpl. lia.
Defined.

(** An upload whose second status query is answered with an error. *)
Lemma upload_fails_fast_witness :
  let r := uploadFile Demo.gemini Demo.png "image/png"
             (World (Demo.uploaded :: [Demo.processing]
                       ++ Demo.failed :: [Demo.active]) []) in
  fst r = Throw (Error (upload_error_prefix +:+ api_error_prefix
                          +:+ "quota exceeded"))
  /\ pending (snd r) = [Demo.active]
  /\ count_GET (log (snd r)) = (count_GET [] + length [Demo.processing] + 1)%nat
  /\ forall w : world,
       count_POST (log (snd (uploadFile Demo.gemini Demo.png "image/png" w)))
       = S (count_POST (log w)).
Proof.
  apply (upload_fails_fast_and_posts_once Demo.gemini Demo.png "image/png" _ _
           (FileInfo "files/abc" "https://files.example/abc")
           "quota exceeded" [Demo.processing] [Demo.active] []);
    reflexivity.
Defined.

(** * Properties of [messageToParts] *)

Section AssemblerFacts.

Variable fileTypeFromBuffer : bytes -> promise (option string).
Variable mime_getType : string -> option string.
Variable toBase64 : bytes -> string.
Variable fromBase64 : string -> bytes.
Variable g : Gemini.

Local Abbreviation step' := (step fileTypeFromBuffer mime_getType toBase64 g).
Local Abbreviation for_of' := (for_of fileTypeFromBuffer mime_getType toBase64 g).
Local Abbreviation for_in' := (for_in fromBase64 g).
Local Abbreviation messageToParts' :=
  (messageToParts fileTypeFromBuffer mime_getType toBase64 fromBase64 g).
Local Abbreviation classify' := (classify fileTypeFromBuffer mime_getType).
Local Abbreviation video_input' := (video_input fileTypeFromBuffer mime_getType).
Local Abbreviation detected' := (detected fileTypeFromBuffer).
Local Abbreviation part_of' := (part_of fileTypeFromBuffer mime_getType toBase64).
Local Abbreviation assembled' :=
  (assembled fileTypeFromBuffer mime_getType toBase64 g).
Local Abbreviation promoted' := (promoted fromBase64 g).
Local Abbreviation post_pass' := (post_pass fromBase64 g).

Lemma skipped_handled (msg : message) : skipped msg = negb (handled msg).
Proof.
  destruct msg as [s|b|b|[b|] [p|]|]; try reflexivity.
  simpl. destruct (negb (p =? "")); reflexivity.
Qed.

Lemma handled_binary (msg : message) (buffer : bytes)
    (filePath : option string) :
  binary_input msg = Some (buffer, filePath) -> handled msg = true.
Proof.
  intros H.
  assert (Hs : is_Some (binary_input msg)) by (rewrite H; eauto).
  destruct msg; try (simpl in H; discriminate); unfold handled;
    apply bool_decide_eq_true_2; exact Hs.
Qed.

(** The loop body on a string. *)
Lemma step_string (s : string) (parts : list Part) (totalBytes : Z)
    (w : world) :
  step' (MString s) (parts, totalBytes) w
  = (Ret (parts ++ [TextPart s], totalBytes), w).
Proof. reflexivity. Qed.

(** The loop body on an element that fails all three tests. *)
Lemma step_skipped (msg : message) (acc : list Part * Z) (w : world) :
  skipped msg = true -> step' msg acc w = (Ret acc, w).
Proof.
  destruct acc as [parts totalBytes].
  destruct msg as [s|b|b|[b|] [p|]|]; simpl; try discriminate; try reflexivity.
  destruct (negb (p =? "")); [discriminate|reflexivity].
Qed.

(** The loop body on a binary input: the size is added first, then the
    buffer is classified, which fails if content sniffing rejects, then the
    part is built, inline or by upload. *)
Lemma step_binary (msg : message) (buffer : bytes) (filePath : option string)
    (parts : list Part) (totalBytes : Z) (w : world) :
  binary_input msg = Some (buffer, filePath) ->
  step' msg (parts, totalBytes) w =
    match fileTypeFromBuffer buffer with
    | Rejects e => (Throw e, w)
    | Resolves _ =>
        if is_video (classify' buffer filePath) then
          (let* fileURI := uploadFile g buffer (classify' buffer filePath) in
           ret (parts ++ [FileDataPart (classify' buffer filePath) fileURI],
                totalBytes + byteLength buffer)) w
        else
          (Ret (parts ++ [InlineDataPart (classify' buffer filePath)
                            (toBase64 buffer)],
                totalBytes + byteLength buffer), w)
    end.
Proof.
  intros Hb.
  assert (Hstep : step' msg (parts, totalBytes) w =
    (let* mimeType :=
       getFileType fileTypeFromBuffer mime_getType buffer filePath false in
     match mimeType with
     | JString mimeType =>
         if negb (String.prefix "video" mimeType) then
           ret (parts ++ [InlineDataPart mimeType (toBase64 buffer)],
                totalBytes + byteLength buffer)
         else
           let* fileURI := uploadFile g buffer mimeType in
           ret (parts ++ [FileDataPart mimeType fileURI],
                totalBytes + byteLength buffer)
     | _ => throw (TypeError not_a_string_message)
     end) w).
  { destruct msg as [s|b|b|[b|] p|]; simpl in Hb; try discriminate.
    - injection Hb as <- <-. reflexivity.
    - injection Hb as <- <-. reflexivity.
    - destruct (truthy_path p) eqn:Hp; [|discriminate].
      injection Hb as <- <-. simpl. rewrite Hp. reflexivity. }
  rewrite Hstep. unfold bind at 1.
  destruct (fileTypeFromBuffer buffer) as [fileType|e] eqn:Hd.
  - assert (Hs : settles fileTypeFromBuffer buffer = true)
      by (unfold settles; rewrite Hd; reflexivity).
    rewrite (proj1 (getFileType_classify _ _ buffer filePath w Hs)).
    unfold is_video.
    destruct (String.prefix "video" (classify' buffer filePath)); reflexivity.
  - rewrite (getFileType_rejects _ _ _ _ _ _ _ Hd). reflexivity.
Qed.

(** The loop body on a binary input for which content sniffing settles. *)
Lemma step_settled (msg : message) (buffer : bytes) (filePath : option string)
    (parts : list Part) (totalBytes : Z) (w : world) :
  binary_input msg = Some (buffer, filePath) ->
  settles fileTypeFromBuffer buffer = true ->
  step' msg (parts, totalBytes) w =
    if is_video (classify' buffer filePath) then
      (let* fileURI := uploadFile g buffer (classify' buffer filePath) in
       ret (parts ++ [FileDataPart (classify' buffer filePath) fileURI],
            totalBytes + byteLength buffer)) w
    else
      (Ret (parts ++ [InlineDataPart (classify' buffer filePath)
                        (toBase64 buffer)],
            totalBytes + byteLength buffer), w).
Proof.
  intros Hb Hs. rewrite (step_binary _ _ _ _ _ _ Hb). unfold settles in Hs.
  destruct (fileTypeFromBuffer buffer); [reflexivity|discriminate].
Qed.

(** The loop body on a binary input for which content sniffing rejects:
    the detector's error leaves the loop, and no request is made. *)
Lemma step_rejected (msg : message) (buffer : bytes) (filePath : option string)
    (acc : list Part * Z) (w : world) (e : exn) :
  binary_input msg = Some (buffer, filePath) ->
  fileTypeFromBuffer buffer = Rejects e ->
  step' msg acc w = (Throw e, w).
Proof.
  intros Hb Hd. destruct acc as [parts totalBytes].
  rewrite (step_binary _ _ _ _ _ _ Hb), Hd. reflexivity.
Qed.

Lemma detected_binary (msg : message) (buffer : bytes)
    (filePath : option string) :
  binary_input msg = Some (buffer, filePath) ->
  detected' msg = settles fileTypeFromBuffer buffer.
Proof. intros H. unfold detected. rewrite H. reflexivity. Qed.

Lemma video_input_binary (msg : message) (buffer : bytes)
    (filePath : option string) :
  binary_input msg = Some (buffer, filePath) ->
  video_input' msg = is_video (classify' buffer filePath).
Proof. intros H. unfold video_input. rewrite H. reflexivity. Qed.

(** The loop is exactly a run of [assembled], and its running total is the
    sum of the sizes of all binary inputs. *)
Lemma for_of_assembled (messages : list message) (parts0 : list Part)
    (total0 : Z) (w : world) (parts : list Part) (total : Z) (w' : world) :
  for_of' messages (parts0, total0) w = (Ret (parts, total), w') <->
  exists new,
    parts = parts0 ++ new
    /\ total = total0 + totalBytes_of messages
    /\ assembled' messages w new w'.
Proof.
  revert parts0 total0 w.
  induction messages as [|msg rest IH]; intros parts0 total0 w.
  { simpl. unfold ret. split.
    - intros [= <- <- <-]. exists []. rewrite app_nil_r, Z.add_0_r.
      repeat split. constructor.
    - intros (new & -> & -> & Ha). inversion Ha; subst.
      rewrite app_nil_r, Z.add_0_r. reflexivity. }
  cbn [for_of totalBytes_of]. unfold bind at 1.
  destruct (handled msg) eqn:Hh.
  2:{ (* the element falls through *)
    assert (Hs : skipped msg = true) by (rewrite skipped_handled, Hh; reflexivity).
    rewrite (step_skipped _ _ _ Hs).
    assert (Hb : binary_input msg = None).
    { destruct (binary_input msg) as [[b p]|] eqn:E; [|reflexivity].
      rewrite (handled_binary _ _ _ E) in Hh. discriminate. }
    rewrite Hb, IH. split.
    - intros (new & -> & -> & Ha). exists new. repeat split.
      apply assembled_skip; assumption.
    - intros (new & -> & -> & Ha). exists new. repeat split.
      inversion Ha; subst; [assumption|congruence|congruence]. }
  destruct (binary_input msg) as [[buffer filePath]|] eqn:Hb.
  2:{ (* a string *)
    destruct msg as [s| | | |]; simpl in Hh, Hb; try discriminate;
      try (apply bool_decide_eq_true in Hh; destruct Hh; congruence).
    rewrite step_string, IH. split.
    - intros (new & -> & -> & Ha). exists (TextPart s :: new).
      rewrite <- app_assoc. repeat split.
      apply (assembled_direct _ _ _ _ (MString s)); auto.
    - intros (new & -> & -> & Ha).
      inversion Ha; subst; try discriminate.
      exists out. rewrite <- app_assoc. repeat split. assumption. }
  (* a binary input *)
  pose proof (video_input_binary _ _ _ Hb) as Hv.
  pose proof (detected_binary _ _ _ Hb) as Hdet.
  destruct (settles fileTypeFromBuffer buffer) eqn:Hsettles.
  2:{ (* content sniffing rejects: the loop throws, and there is no run *)
    assert (Hd : exists e, fileTypeFromBuffer buffer = Rejects e).
    { unfold settles in Hsettles.
      destruct (fileTypeFromBuffer buffer); [discriminate|eauto]. }
    destruct Hd as [e Hd].
    rewrite (step_rejected _ _ _ _ _ _ Hb Hd).
    split; [discriminate|]. intros (new & -> & -> & Ha).
    inversion Ha; subst.
    - congruence.
    - congruence.
    - match goal with H : binary_input msg = Some _ |- _ =>
        rewrite Hb in H; injection H as <- <- end.
      match goal with H : is_video _ = true |- _ =>
        apply video_settles in H end.
      congruence. }
  rewrite (step_settled _ _ _ _ _ _ Hb Hsettles).
  assert (Hpart : is_video (classify' buffer filePath) = false ->
            part_of' msg "" = InlineDataPart (classify' buffer filePath)
                                (toBase64 buffer)).
  { intros Hnv. unfold part_of. rewrite Hb, Hnv.
    destruct msg; simpl in Hb; try discriminate; reflexivity. }
  assert (Hinv : forall new, assembled' (msg :: rest) w new w' ->
            if is_video (classify' buffer filePath) then
              exists fileURI w1 out,
                uploadFile g buffer (classify' buffer filePath) w
                  = (Ret fileURI, w1)
                /\ new = FileDataPart (classify' buffer filePath) fileURI :: out
                /\ assembled' rest w1 out w'
            else
              exists out,
                new = InlineDataPart (classify' buffer filePath)
                        (toBase64 buffer) :: out
                /\ assembled' rest w out w').
  { intros new Ha. inversion Ha; subst.
    - congruence.
    - rewrite Hv in *.
      match goal with H : is_video _ = false |- _ => rewrite H end.
      rewrite Hpart by assumption. eauto.
    - match goal with H : binary_input msg = Some _ |- _ =>
        rewrite Hb in H; injection H as <- <- end.
      match goal with H : is_video _ = true |- _ => rewrite H end. eauto 6. }
  destruct (is_video (classify' buffer filePath)) eqn:Hvid.
  - unfold bind at 1.
    destruct (uploadFile g buffer (classify' buffer filePath) w)
      as [[fileURI|e|] w1] eqn:Hup.
    + unfold ret at 1. rewrite IH. split.
      * intros (new & -> & -> & Ha). eexists (_ :: new).
        rewrite <- app_assoc. split; [reflexivity|]. split; [lia|].
        eapply assembled_upload; eassumption.
      * intros (new & -> & -> & Ha).
        destruct (Hinv _ Ha) as (u & w2 & out & [= <- <-] & -> & Hrest).
        exists out. rewrite <- app_assoc. split; [reflexivity|].
        split; [lia|assumption].
    + split; [discriminate|]. intros (new & -> & -> & Ha).
      destruct (Hinv _ Ha) as (u & w2 & out & [=] & _).
    + split; [discriminate|]. intros (new & -> & -> & Ha).
      destruct (Hinv _ Ha) as (u & w2 & out & [=] & _).
  - rewrite IH. split.
    + intros (new & -> & -> & Ha). eexists (_ :: new).
      rewrite <- app_assoc. split; [reflexivity|]. split; [lia|].
      rewrite <- (Hpart eq_refl). apply assembled_direct; assumption.
    + intros (new & -> & -> & Ha).
      destruct (Hinv _ Ha) as (out & -> & Hrest).
      exists out. rewrite <- app_assoc.
      split; [reflexivity|]. split; [lia|assumption].
Qed.

(** The post-pass is exactly a run of [promoted]; the parts before the
    index being visited are already final. *)
Lemma for_in_promoted (suffix : list Part) (done : list Part) (w : world)
    (out : list Part) (w' : world) :
  for_in' (seq (length done) (length suffix)) (done ++ suffix) w
    = (Ret out, w') <->
  exists suffix', out = done ++ suffix' /\ promoted' suffix w suffix' w'.
Proof.
  revert done w. induction suffix as [|p suffix IH]; intros done w.
  { simpl. unfold ret. split.
    - intros [= <- <-]. exists []. split; [reflexivity|constructor].
    - intros (suffix' & -> & Hp). inversion Hp; subst. reflexivity. }
  cbn [length seq for_in].
  rewrite (list_lookup_middle done suffix p (length done) eq_refl).
  assert (Hnext : forall q w0,
            for_in' (seq (S (length done)) (length suffix))
              (done ++ q :: suffix) w0 = (Ret out, w') <->
            exists suffix', out = (done ++ [q]) ++ suffix'
                            /\ promoted' suffix w0 suffix' w').
  { intros q w0. rewrite <- IH, length_app, Nat.add_1_r, <- app_assoc.
    reflexivity. }
  assert (Hkeep : is_inline p = false ->
            (for_in' (seq (S (length done)) (length suffix))
               (done ++ p :: suffix) w = (Ret out, w') <->
             exists suffix', out = done ++ suffix'
                             /\ promoted' (p :: suffix) w suffix' w')).
  { intros Hp. rewrite Hnext. split.
    - intros (suffix' & -> & Hrun). exists (p :: suffix').
      rewrite <- app_assoc. split; [reflexivity|]. constructor; assumption.
    - intros (suffix' & -> & Hrun). inversion Hrun; subst; [|discriminate].
      eexists. rewrite <- app_assoc. split; [reflexivity|assumption]. }
  destruct p as [text|mimeType data|mimeType fileUri];
    [apply Hkeep; reflexivity| |apply Hkeep; reflexivity].
  unfold bind at 1.
  destruct (uploadFile g (fromBase64 data) mimeType w)
    as [[fileURI|e|] w1] eqn:Hup.
  - rewrite insert_app_r_alt, Nat.sub_diag by lia. cbn [insert list_insert].
    rewrite Hnext. split.
    + intros (suffix' & -> & Hrun). eexists (_ :: suffix').
      rewrite <- app_assoc. split; [reflexivity|].
      eapply promoted_upload; eassumption.
    + intros (suffix' & -> & Hrun). inversion Hrun; subst; [discriminate|].
      match goal with H : uploadFile _ _ _ _ = (Ret _, _) |- _ =>
        rewrite Hup in H; injection H as <- <- end.
      eexists. rewrite <- app_assoc. split; [reflexivity|assumption].
  - split; [discriminate|]. intros (suffix' & -> & Hrun).
    inversion Hrun; subst; [discriminate|congruence].
  - split; [discriminate|]. intros (suffix' & -> & Hrun).
    inversion Hrun; subst; [discriminate|congruence].
Qed.

(** [messageToParts] is a run of the loop, followed by a run of the
    post-pass when the total of all binary inputs exceeds the threshold. *)
Lemma messageToParts_run (messages : list message) (w : world)
    (out : list Part) (w' : world) :
  messageToParts' messages w = (Ret out, w') <->
  exists parts w1,
    assembled' messages w parts w1
    /\ if (SIZE_THRESHOLD <? totalBytes_of messages)%Z
       then promoted' parts w1 out w'
       else out = parts /\ w' = w1.
Proof.
  unfold messageToParts, bind at 1.
  destruct (for_of' messages ([], 0) w) as [[[parts total]|e|] w1] eqn:Hloop.
  - apply for_of_assembled in Hloop as (new & -> & -> & Hrun).
    cbn [app]. rewrite Z.add_0_l.
    assert (Hsame : forall parts' w2, assembled' messages w parts' w2 ->
              parts' = new /\ w2 = w1).
    { intros parts' w2 Hrun'.
      assert (H1 : for_of' messages ([], 0) w
                   = (Ret ([] ++ new, 0 + totalBytes_of messages), w1))
        by (apply for_of_assembled; eauto).
      assert (H2 : for_of' messages ([], 0) w
                   = (Ret ([] ++ parts', 0 + totalBytes_of messages), w2))
        by (apply for_of_assembled; eauto).
      rewrite H1 in H2. cbn [app] in H2. injection H2 as <- <-. auto. }
    destruct (SIZE_THRESHOLD <? totalBytes_of messages)%Z.
    + rewrite (for_in_promoted new [] w1 out w'). cbn [app]. split.
      * intros (suffix' & -> & Hp). eauto.
      * intros (parts' & w2 & Hrun' & Hp).
        destruct (Hsame _ _ Hrun') as [-> ->]. eauto.
    + unfold ret. split.
      * intros [= <- <-]. eauto.
      * intros (parts' & w2 & Hrun' & -> & ->).
        destruct (Hsame _ _ Hrun') as [-> ->]. reflexivity.
  - split; [discriminate|]. intros (parts & w1' & Hrun & _).
    assert (H1 : for_of' messages ([], 0) w
                 = (Ret ([] ++ parts, 0 + totalBytes_of messages), w1'))
      by (apply for_of_assembled; eauto).
    congruence.
  - split; [discriminate|]. intros (parts & w1' & Hrun & _).
    assert (H1 : for_of' messages ([], 0) w
                 = (Ret ([] ++ parts, 0 + totalBytes_of messages), w1'))
      by (apply for_of_assembled; eauto).
    congruence.
Qed.

(** Part by part: what a run of the loop pushes for the handled elements,
    in their order. *)
Lemma assembled_parts (messages : list message) (w : world)
    (parts : list Part) (w' : world) :
  assembled' messages w parts w' ->
  Forall2 (returned_for fileTypeFromBuffer mime_getType toBase64 false)
    (List.filter handled messages) parts.
Proof.
  induction 1 as [w|msg rest w out w' Hh _ IH|msg rest w out w' Hh Hd Hv _ IH
                 |msg buffer filePath fileURI rest w w1 out w' Hb Hv Hup _ IH];
    cbn [List.filter].
  - constructor.
  - rewrite Hh. exact IH.
  - rewrite Hh. constructor; [|exact IH].
    unfold returned_for, part_of. unfold video_input in Hv.
    destruct msg as [s|b|b|[b|] p|]; try reflexivity; try discriminate;
      simpl in Hh, Hv |- *.
    + rewrite Hv. reflexivity.
    + rewrite Hv. reflexivity.
    + destruct (truthy_path p); [|discriminate]. rewrite Hv. reflexivity.
  - rewrite (handled_binary _ _ _ Hb). constructor; [|exact IH].
    unfold returned_for. rewrite Hb. cbn zeta. rewrite Hv.
    destruct msg; try (simpl in Hb; discriminate); cbn [orb]; eauto.
Qed.

(** Part by part: what a run of the post-pass makes of the parts. *)
Lemma promoted_parts (parts : list Part) (w : world) (out : list Part)
    (w' : world) :
  promoted' parts w out w' ->
  Forall2 promoted_part parts out
  /\ Forall (fun p => is_inline p = false) out.
Proof.
  induction 1 as [w|p rest w out w' Hp _ [IH1 IH2]
                 |mimeType data fileURI rest w w1 out w' Hup _ [IH1 IH2]].
  - split; constructor.
  - split; constructor; try assumption.
    destruct p; try discriminate; reflexivity.
  - split; constructor; try assumption; simpl; eauto.
Qed.

(** Without video inputs, and when content sniffing settles for every
    input it is asked about, the loop needs no network: it pushes the parts
    of the handled elements and leaves the world alone. *)
Lemma assembled_no_video (messages : list message) (w : world) :
  Forall (fun msg => detected' msg = true) messages ->
  Forall (fun msg => video_input' msg = false) messages ->
  assembled' messages w
    (map (fun msg => part_of' msg "") (List.filter handled messages)) w.
Proof.
  induction messages as [|msg rest IH]; intros Hd Hv;
    cbn [List.filter map]; [constructor|].
  inversion Hd; subst. inversion Hv; subst.
  destruct (handled msg) eqn:Hh.
  - cbn [map]. apply assembled_direct; auto.
  - apply assembled_skip; auto.
Qed.

(** The loop over a concatenation is the loop over the first list, then
    the loop over the second from the accumulators reached. *)
Lemma for_of_app (l1 l2 : list message) (acc : list Part * Z) (w : world) :
  for_of' (l1 ++ l2) acc w
  = (let* acc1 := for_of' l1 acc in for_of' l2 acc1) w.
Proof.
  revert acc w. induction l1 as [|msg l1 IH]; intros acc w; [reflexivity|].
  cbn [app for_of]. unfold bind.
  destruct (step' msg acc w) as [[acc'|e|] w1]; [|reflexivity|reflexivity].
  rewrite IH. reflexivity.
Qed.

(** [messageToParts] is the loop followed by the post-pass. *)
Lemma messageToParts_post_pass (messages : list message) (w : world) :
  messageToParts' messages w
  = (let* acc := for_of' messages ([], 0) in post_pass' acc) w.
Proof. reflexivity. Qed.

Lemma returned_for_promoted (msg : message) (p q : Part) :
  returned_for fileTypeFromBuffer mime_getType toBase64 false msg p ->
  promoted_part p q ->
  returned_for fileTypeFromBuffer mime_getType toBase64 true msg q.
Proof.
  unfold returned_for.
  assert (Hbin : forall buffer filePath,
            (let mimeType := classify' buffer filePath in
             if is_video mimeType || false
             then exists fileURI, p = FileDataPart mimeType fileURI
             else p = InlineDataPart mimeType (toBase64 buffer)) ->
            promoted_part p q ->
            let mimeType := classify' buffer filePath in
            if is_video mimeType || true
            then exists fileURI, q = FileDataPart mimeType fileURI
            else q = InlineDataPart mimeType (toBase64 buffer)).
  { intros buffer filePath. cbn zeta. rewrite orb_false_r, orb_true_r.
    destruct (is_video (classify' buffer filePath)).
    - intros [u ->] ->. eauto.
    - intros -> Hq. exact Hq. }
  destruct msg as [s|b|b|[b|] path|]; cbn [binary_input];
    try (intros -> ->; reflexivity); try apply Hbin; try contradiction.
  destruct (truthy_path path); [apply Hbin|contradiction].
Qed.

Lemma Forall2_returned_promoted (l : list message) (parts out : list Part) :
  Forall2 (returned_for fileTypeFromBuffer mime_getType toBase64 false) l parts ->
  Forall2 promoted_part parts out ->
  Forall2 (returned_for fileTypeFromBuffer mime_getType toBase64 true) l out.
Proof.
  intros H. revert out. induction H as [|msg p l parts Hr _ IH]; intros out Hp.
  - inversion Hp. constructor.
  - inversion Hp; subst. constructor; [|apply IH; assumption].
    eapply returned_for_promoted; eassumption.
Qed.

(** What [messageToParts] returns, part by part, for the handled elements
    in their order. *)
Lemma messageToParts_parts (messages : list message) (w : world)
    (out : list Part) (w' : world) :
  messageToParts' messages w = (Ret out, w') ->
  Forall2 (returned_for fileTypeFromBuffer mime_getType toBase64
             (SIZE_THRESHOLD <? totalBytes_of messages)%Z)
    (List.filter handled messages) out.
Proof.
  intros Hrun. apply messageToParts_run in Hrun as (parts & w1 & Ha & Hpost).
  apply assembled_parts in Ha.
  destruct (SIZE_THRESHOLD <? totalBytes_of messages)%Z.
  - apply promoted_parts in Hpost as [Hp _].
    eapply Forall2_returned_promoted; eassumption.
  - destruct Hpost as [-> _]. exact Ha.
Qed.

(** What the loop makes of a list without video inputs for which content
    sniffing settles throughout, from any accumulators. *)
Lemma for_of_no_video (messages : list message) (parts : list Part)
    (total : Z) (w : world) :
  Forall (fun msg => detected' msg = true) messages ->
  Forall (fun msg => video_input' msg = false) messages ->
  for_of' messages (parts, total) w
  = (Ret (parts ++ map (fun msg => part_of' msg "")
                     (List.filter handled messages),
          total + totalBytes_of messages), w).
Proof.
  intros Hd Hv. apply for_of_assembled. eexists. split; [reflexivity|].
  split; [reflexivity|]. apply assembled_no_video; assumption.
Qed.

(** A call with strings only: the loop pushes one text part per string,
    counts no bytes and leaves the world alone. *)
Lemma totalBytes_of_strings (texts : list string) :
  totalBytes_of (map MString texts) = 0.
Proof. induction texts as [|s texts IH]; [reflexivity|exact IH]. Qed.

Lemma assembled_strings (texts : list string) (w : world) :
  assembled' (map MString texts) w (map TextPart texts) w.
Proof.
  induction texts as [|s texts IH]; [constructor|].
  apply (assembled_direct fileTypeFromBuffer mime_getType toBase64 g
           (MString s) (map MString texts) w (map TextPart texts) w);
    [reflexivity|reflexivity|reflexivity|exact IH].
Qed.

(** C1, the code at the failing input. A call with a [FileUpload] whose
    [filePath] is the empty string, and strings besides: the input is of
    the declared binary type, the total is at most 20 MiB and nothing is
    classified as video, yet the call returns the text parts only; the
    binary input is no inline part of the output, nor any part. *)
Theorem empty_path_upload_is_not_inlined (buffer : bytes)
    (texts : list string) (w : world) :
  declared_binary (FileUpload buffer "") = true
  /\ totalBytes_of (FileUpload buffer "" :: map MString texts)
     <= SIZE_THRESHOLD
  /\ Forall (fun msg => video_input' msg = false)
       (FileUpload buffer "" :: map MString texts)
  /\ messageToParts' (FileUpload buffer "" :: map MString texts) w
     = (Ret (map TextPart texts), w)
  /\ Forall (fun p => is_inline p = false) (map TextPart texts).
Proof.
  assert (Htotal : totalBytes_of (FileUpload buffer "" :: map MString texts)
                   = 0) by apply totalBytes_of_strings.
  split; [reflexivity|]. split; [rewrite Htotal; unfold SIZE_THRESHOLD; lia|].
  split; [|split].
  - constructor; [reflexivity|]. apply Forall_forall. intros msg Hin.
    apply in_map_iff in Hin as (s & <- & _). reflexivity.
  - apply messageToParts_run. exists (map TextPart texts), w. rewrite Htotal.
    split; [|split; reflexivity].
    apply assembled_skip; [reflexivity|apply assembled_strings].
  - apply Forall_forall. intros p Hin.
    apply in_map_iff in Hin as (s & <- & _). reflexivity.
Qed.

(** X25. When the byte total of the call exceeds 20 MiB, [messageToParts]
    returns exactly when the loop runs and the post-pass then re-submits
    every inline part through [uploadFile] and replaces it, in place, by a
    file-data part with the same MIME type and the URI that upload
    returned; no inline part is left.  When the total is at most 20 MiB, no
    input is classified as video and content sniffing settles for every
    input the loop sniffs, the call returns without touching the network
    and the part of every binary input the loop handles is an inline part.
    When content sniffing rejects for a binary input the loop reaches, the
    call rejects with the detector's error and returns no part. *)
Theorem threshold_law (messages : list message) (w : world) :
  (SIZE_THRESHOLD < totalBytes_of messages ->
   forall out w',
     (messageToParts' messages w = (Ret out, w') <->
      exists parts w1,
        assembled' messages w parts w1 /\ promoted' parts w1 out w')
     /\ (messageToParts' messages w = (Ret out, w') ->
         Forall (fun p => is_inline p = false) out
         /\ Forall2 (returned_for fileTypeFromBuffer mime_getType toBase64 true)
              (List.filter handled messages) out))
  /\ (totalBytes_of messages <= SIZE_THRESHOLD ->
      Forall (fun msg => video_input' msg = false) messages ->
      Forall (fun msg => detected' msg = true) messages ->
      messageToParts' messages w
        = (Ret (map (fun msg => part_of' msg "") (List.filter handled messages)),
           w)
      /\ Forall (fun p => is_fileData p = false)
           (map (fun msg => part_of' msg "") (List.filter handled messages))
      /\ forall msg buffer filePath,
           In msg messages ->
           binary_input msg = Some (buffer, filePath) ->
           part_of' msg ""
             = InlineDataPart (classify' buffer filePath) (toBase64 buffer))
  /\ (forall before msg after buffer filePath e,
        messages = before ++ msg :: after ->
        Forall (fun msg => video_input' msg = false) before ->
        Forall (fun msg => detected' msg = true) before ->
        binary_input msg = Some (buffer, filePath) ->
        fileTypeFromBuffer buffer = Rejects e ->
        messageToParts' messages w = (Throw e, w)).
Proof.
  split; [|split].
  - intros Hbig out w'.
    assert (Hlt : (SIZE_THRESHOLD <? totalBytes_of messages)%Z = true)
      by (apply Z.ltb_lt; exact Hbig).
    split.
    + rewrite messageToParts_run, Hlt. reflexivity.
    + intros Hrun. split.
      * apply messageToParts_run in Hrun as (parts & w1 & _ & Hpost).
        rewrite Hlt in Hpost. apply promoted_parts in Hpost. tauto.
      * apply messageToParts_parts in Hrun. rewrite Hlt in Hrun. exact Hrun.
  - intros Hsmall Hnv Hdet.
    assert (Hge : (SIZE_THRESHOLD <? totalBytes_of messages)%Z = false)
      by (apply Z.ltb_ge; exact Hsmall).
    split.
    + apply messageToParts_run. rewrite Hge.
      eexists _, w. split; [apply assembled_no_video; assumption|auto].
    + assert (Hinline : forall msg buffer filePath,
                In msg messages ->
                binary_input msg = Some (buffer, filePath) ->
                part_of' msg ""
                  = InlineDataPart (classify' buffer filePath) (toBase64 buffer)).
      { intros msg buffer filePath Hin Hb.
        rewrite Forall_forall in Hnv. specialize (Hnv msg Hin).
        rewrite (video_input_binary _ _ _ Hb) in Hnv.
        unfold part_of. rewrite Hb. cbn zeta. rewrite Hnv.
        destruct msg; try (simpl in Hb; discriminate); reflexivity. }
      split; [|exact Hinline].
      apply Forall_forall. intros p Hp. apply in_map_iff in Hp as (msg & <- & Hin).
      apply filter_In in Hin as [Hin _].
      destruct (binary_input msg) as [[buffer filePath]|] eqn:Hb.
      * rewrite (Hinline _ _ _ Hin Hb). reflexivity.
      * unfold part_of. rewrite Hb. destruct msg; reflexivity.
  - intros before msg after buffer filePath e -> Hnv Hdet Hb Hrej.
    rewrite messageToParts_post_pass. unfold bind at 1.
    rewrite for_of_app. unfold bind at 1.
    rewrite (for_of_no_video _ _ _ _ Hdet Hnv).
    cbn [for_of]. unfold bind at 1.
    rewrite (step_rejected _ _ _ _ _ _ Hb Hrej). reflexivity.
Qed.

(** The running total of the loop is the sum of the sizes of all binary
    inputs, and it is the number compared with the threshold. *)
Lemma running_total (messages : list message) (w : world)
    (parts : list Part) (total : Z) (w' : world) :
  for_of' messages ([], 0) w = (Ret (parts, total), w') ->
  total = totalBytes_of messages.
Proof.
  intros Hrun. apply for_of_assembled in Hrun as (new & _ & -> & _). lia.
Qed.

(** C2, as the code has it. The running total that is compared with the
    threshold counts the size of every binary input, the ones classified as
    video included: each binary input adds its size in the loop body,
    before it is classified, and the total after the loop is the sum over
    all binary inputs. *)
Theorem total_counts_every_binary_input (messages : list message) (w : world)
    (parts : list Part) (total : Z) (w' : world) :
  for_of' messages ([], 0) w = (Ret (parts, total), w') ->
  total = totalBytes_of messages
  /\ forall msg buffer filePath parts0 total0 w0 parts1 total1 w1,
       binary_input msg = Some (buffer, filePath) ->
       step' msg (parts0, total0) w0 = (Ret (parts1, total1), w1) ->
       total1 = total0 + byteLength buffer.
Proof.
  intros Hrun. split; [eapply running_total; eassumption|].
  intros msg buffer filePath parts0 total0 w0 parts1 total1 w1 Hb.
  rewrite (step_binary _ _ _ _ _ _ Hb).
  destruct (fileTypeFromBuffer buffer); [|discriminate].
  destruct (is_video (classify' buffer filePath)).
  - unfold bind. destruct (uploadFile _ _ _ _) as [[u|e|] w2];
      [|discriminate|discriminate].
    unfold ret. intros [= <- <- <-]. reflexivity.
  - intros [= <- <- <-]. reflexivity.
Qed.

(** C3, the code at the failing input. A [FileUpload] whose [filePath] is
    the empty string has both fields of the declared type, yet it fails
    [isFileUpload], and [messageToParts] returns no part for it and raises
    no error; the same bytes given as an [ArrayBuffer], when content
    sniffing settles for them and they are small and not video, give one
    inline part. *)
Theorem empty_path_upload_is_dropped (buffer : bytes) (w : world) :
  declared_binary (FileUpload buffer "") = true
  /\ isFileUpload (FileUpload buffer "") = false
  /\ messageToParts' [FileUpload buffer ""] w = (Ret [], w)
  /\ (settles fileTypeFromBuffer buffer = true ->
      is_video (classify' buffer None) = false ->
      byteLength buffer <= SIZE_THRESHOLD ->
      messageToParts' [MArrayBuffer buffer] w
      = (Ret [InlineDataPart (classify' buffer None) (toBase64 buffer)], w)).
Proof.
  split; [reflexivity|]. split; [reflexivity|]. split; [reflexivity|].
  intros Hs Hv Hsmall.
  rewrite messageToParts_post_pass. unfold bind at 1. cbn [for_of].
  unfold bind at 1.
  rewrite (step_settled (MArrayBuffer buffer) buffer None [] 0 w eq_refl Hs), Hv.
  cbn [for_of ret app post_pass]. rewrite Z.add_0_l.
  assert (Hge : (SIZE_THRESHOLD <? byteLength buffer)%Z = false)
    by (apply Z.ltb_ge; exact Hsmall).
  rewrite Hge. reflexivity.
Qed.

(** X24. The parts returned follow the order of the elements the loop
    handles: a string gives a text part with that string; a handled binary
    input gives exactly one part, an inline part or a file-data part with
    the classified type, and never a text part. *)
Theorem parts_follow_handled_inputs (messages : list message) (w : world)
    (out : list Part) (w' : world) :
  messageToParts' messages w = (Ret out, w') ->
  Forall2 (fun msg p =>
             match msg with
             | MString s => p = TextPart s
             | _ => is_text p = false
                    /\ xorb (is_inline p) (is_fileData p) = true
             end)
    (List.filter handled messages) out
  /\ Forall2 (returned_for fileTypeFromBuffer mime_getType toBase64
                (SIZE_THRESHOLD <? totalBytes_of messages)%Z)
       (List.filter handled messages) out.
Proof.
  intros Hrun. apply messageToParts_parts in Hrun.
  split; [|exact Hrun].
  eapply Forall2_impl; [|exact Hrun].
  intros msg p. unfold returned_for.
  assert (Hbin : forall buffer filePath,
            (let mimeType := classify' buffer filePath in
             if is_video mimeType
                || (SIZE_THRESHOLD <? totalBytes_of messages)%Z
             then exists fileURI, p = FileDataPart mimeType fileURI
             else p = InlineDataPart mimeType (toBase64 buffer)) ->
            is_text p = false /\ xorb (is_inline p) (is_fileData p) = true).
  { intros buffer filePath. cbn zeta.
    destruct (_ || _); [intros [u ->]|intros ->]; split; reflexivity. }
  destruct msg as [s|b|b|[b|] path|]; cbn [binary_input];
    try (apply Hbin); try contradiction; [tauto|].
  destruct (truthy_path path); [apply Hbin|contradiction].
Qed.







(** C10. An element that is neither a string, nor an [ArrayBuffer], nor a
    [Uint8Array], nor an object that passes [isFileUpload] leaves the loop
    body without a part, without an error and without any effect; the
    parts returned are as many as the handled elements, so they may be
    fewer than the elements; and a [FileUpload] with an empty [filePath]
    fails [isFileUpload] and is dropped. *)
Theorem unhandled_inputs_are_dropped :
  (forall msg acc w, skipped msg = true -> step' msg acc w = (Ret acc, w))
  /\ (forall messages w out w',
        messageToParts' messages w = (Ret out, w') ->
        length out = length (List.filter handled messages)
        /\ (length out <= length messages)%nat)
  /\ (forall messages w,
        forallb skipped messages = true ->
        messageToParts' messages w = (Ret [], w))
  /\ (forall buffer w,
        isFileUpload (FileUpload buffer "") = false
        /\ skipped (FileUpload buffer "") = true
        /\ messageToParts' [FileUpload buffer ""] w = (Ret [], w)).
Proof.
  assert (Hall : forall messages w,
            forallb skipped messages = true ->
            messageToParts' messages w = (Ret [], w)).
  { intros messages w Hs. apply messageToParts_run.
    assert (Hrun : assembled' messages w [] w
                   /\ totalBytes_of messages = 0).
    { induction messages as [|msg rest IH]; [split; [constructor|reflexivity]|].
      cbn [forallb] in Hs. apply andb_prop in Hs as [Hm Hrest].
      destruct (IH Hrest) as [Ha Ht].
      assert (Hh : handled msg = false).
      { rewrite skipped_handled in Hm. destruct (handled msg);
          [discriminate|reflexivity]. }
      split; [apply assembled_skip; assumption|].
      cbn [totalBytes_of].
      destruct (binary_input msg) as [[b p]|] eqn:E; [|exact Ht].
      rewrite (handled_binary _ _ _ E) in Hh. discriminate. }
    destruct Hrun as [Ha Ht]. exists [], w. split; [exact Ha|].
    rewrite Ht. split; reflexivity. }
  split; [|split; [|split]].
  - intros msg acc w Hs. apply step_skipped. exact Hs.
  - intros messages w out w' Hrun. apply messageToParts_parts in Hrun.
    apply Forall2_length in Hrun. split; [symmetry; exact Hrun|].
    rewrite <- Hrun. apply List.filter_length_le.
  - exact Hall.
  - intros buffer w. split; [reflexivity|]. split; [reflexivity|].
    apply Hall. reflexivity.
Qed.

End AssemblerFacts.

(** * Worked examples on the concrete environment *)

Lemma big_png_total :
  SIZE_THRESHOLD
  < totalBytes_of [MUint8Array Demo.big_png].
Proof.
  cbn [totalBytes_of binary_input]. unfold byteLength, Demo.big_png.
  rewrite length_app, repeat_length.
  change (length Demo.big_png_head) with 41%nat.
  unfold SIZE_THRESHOLD. lia.
Qed.

(** The 20 MiB scenario: one PNG buffer above [SIZE_THRESHOLD] is inlined
    by the loop, then promoted: one upload, one status query that finds the
    file active, and a file-data part is returned.  Below it, a small call
    that stays inline and off the network, and a call whose second element
    is a PNG file cut after its signature, which rejects. *)
Lemma threshold_law_witness :
  messageToParts Demo.fileTypeFromBuffer Demo.mime_getType Demo.toBase64
    Demo.fromBase64 Demo.gemini [MUint8Array Demo.big_png]
    (World [Demo.uploaded; Demo.active] [])
  = (Ret [FileDataPart "image/png" "https://files.example/abc"],
     World []
       [Fetch POST (upload_url Demo.gemini)
          (Some ("image/png", Demo.fromBase64 (Demo.toBase64 Demo.big_png)));
        Fetch GET (status_url Demo.gemini "files/abc") None])
  /\ messageToParts Demo.fileTypeFromBuffer Demo.mime_getType Demo.toBase64
       Demo.fromBase64 Demo.gemini
       [MString "Describe this image"; MUint8Array Demo.png;
        FileUpload Demo.plain "notes.md"] Demo.idle
     = (Ret [TextPart "Describe this image";
             InlineDataPart "image/png" "iVBORw0KGgoAAAANSUhEUgAAAAEAAAABCAAAAAA6fptVAAAACklEQVR4nGNgAAAAAgAB4iG8MwAAAABJRU5ErkJggg==";
             InlineDataPart "text/markdown" "aGkK"], Demo.idle)
  /\ messageToParts Demo.fileTypeFromBuffer Demo.mime_getType Demo.toBase64
       Demo.fromBase64 Demo.gemini
       [MString "Describe this image"; MUint8Array Demo.truncated_png;
        MUint8Array Demo.png] Demo.idle
     = (Throw Demo.end_of_stream, Demo.idle).
Proof.
  split; [|split].
  - apply (proj1 (proj1 (threshold_law Demo.fileTypeFromBuffer Demo.mime_getType
                           Demo.toBase64 Demo.fromBase64 Demo.gemini
                           [MUint8Array Demo.big_png]
                           (World [Demo.uploaded; Demo.active] []))
                    big_png_total _ _)).
    exists [InlineDataPart "image/png" (Demo.toBase64 Demo.big_png)],
           (World [Demo.uploaded; Demo.active] []).
    split.
    + apply (assembled_direct Demo.fileTypeFromBuffer Demo.mime_getType
               Demo.toBase64 Demo.gemini (MUint8Array Demo.big_png) []
               (World [Demo.uploaded; Demo.active] []) []
               (World [Demo.uploaded; Demo.active] []));
        [reflexivity|reflexivity|reflexivity|constructor].
    + apply (promoted_upload Demo.fromBase64 Demo.gemini "image/png"
               (Demo.toBase64 Demo.big_png) "https://files.example/abc" []
               (World [Demo.uploaded; Demo.active] [])
               (World []
                  [Fetch POST (upload_url Demo.gemini)
                     (Some ("image/png",
                            Demo.fromBase64 (Demo.toBase64 Demo.big_png)));
                   Fetch GET (status_url Demo.gemini "files/abc") None]));
        [reflexivity|constructor].
  - apply (proj1 (proj2 (threshold_law Demo.fileTypeFromBuffer
                           Demo.mime_getType Demo.toBase64 Demo.fromBase64
                           Demo.gemini
                           [MString "Describe this image"; MUint8Array Demo.png;
                            FileUpload Demo.plain "notes.md"] Demo.idle))).
    + vm_compute. discriminate.
    + repeat constructor.
    + repeat constructor.
  - apply (proj2 (proj2 (threshold_law Demo.fileTypeFromBuffer
                           Demo.mime_getType Demo.toBase64 Demo.fromBase64
                           Demo.gemini
                           [MString "Describe this image";
                            MUint8Array Demo.truncated_png;
                            MUint8Array Demo.png] Demo.idle))
             [MString "Describe this image"]
             (MUint8Array Demo.truncated_png) [MUint8Array Demo.png]
             Demo.truncated_png None Demo.end_of_stream).
    + reflexivity.
    + repeat constructor.
    + repeat constructor.
    + reflexivity.
    + reflexivity.
Defined.

(** Two questions and a PNG image given as a [FileUpload] with an empty
    path, at 0 bytes counted and nothing classified as video: the call
    returns the two text parts. *)
Lemma empty_path_upload_is_not_inlined_witness :
  messageToParts Demo.fileTypeFromBuffer Demo.mime_getType Demo.toBase64
    Demo.fromBase64 Demo.gemini
    [FileUpload Demo.png ""; MString "What is this?"; MString "Be brief."]
    Demo.idle
  = (Ret [TextPart "What is this?"; TextPart "Be brief."], Demo.idle).
Proof.
  exact (proj1 (proj2 (proj2 (proj2
           (empty_path_upload_is_not_inlined Demo.fileTypeFromBuffer
              Demo.mime_getType Demo.toBase64 Demo.fromBase64 Demo.gemini
              Demo.png ["What is this?"; "Be brief."] Demo.idle))))).
Defined.

(** C2 as stated fails: a call with a single video buffer of 24 bytes ends
    the loop with a running total of 24, while the sizes of the inputs
    emitted inline add up to 0. *)
Lemma total_is_not_inline_only :
  ~ (forall sniff ext toBase64 g messages w parts total w',
       for_of sniff ext toBase64 g messages ([], 0) w
         = (Ret (parts, total), w') ->
       total = inlineBytes_of sniff ext messages).
Proof.
  intros H.
  specialize (H Demo.fileTypeFromBuffer Demo.mime_getType Demo.toBase64
                Demo.gemini [MUint8Array Demo.mp4]
                (World [Demo.uploaded; Demo.active] [])
                [FileDataPart "video/mp4" "https://files.example/abc"] 24
                (World []
                   [Fetch POST (upload_url Demo.gemini)
                      (Some ("video/mp4", Demo.mp4));
                    Fetch GET (status_url Demo.gemini "files/abc") None])
                eq_refl).
  vm_compute in H. discriminate H.
Qed.

(** A video of 24 bytes followed by a PNG of 67: the running total is 91. *)
Lemma total_counts_every_binary_input_witness :
  91 = totalBytes_of [MUint8Array Demo.mp4; MUint8Array Demo.png]
  /\ forall msg buffer filePath parts0 total0 w0 parts1 total1 w1,
       binary_input msg = Some (buffer, filePath) ->
       step Demo.fileTypeFromBuffer Demo.mime_getType Demo.toBase64 Demo.gemini
         msg (parts0, total0) w0 = (Ret (parts1, total1), w1) ->
       total1 = total0 + byteLength buffer.
Proof.
  apply (total_counts_every_binary_input Demo.fileTypeFromBuffer
           Demo.mime_getType Demo.toBase64 Demo.gemini
           [MUint8Array Demo.mp4; MUint8Array Demo.png]
           (World [Demo.uploaded; Demo.active] [])
           [FileDataPart "video/mp4" "https://files.example/abc";
            InlineDataPart "image/png" "iVBORw0KGgoAAAANSUhEUgAAAAEAAAABCAAAAAA6fptVAAAACklEQVR4nGNgAAAAAgAB4iG8MwAAAABJRU5ErkJggg=="]
           91
           (World []
              [Fetch POST (upload_url Demo.gemini)
                 (Some ("video/mp4", Demo.mp4));
               Fetch GET (status_url Demo.gemini "files/abc") None])).
  reflexivity.
Defined.

(** The claim that every binary input of the declared types has its part
    does not hold of the code: a [FileUpload] with an empty [filePath] is
    such an input, and the call returns no part for it. *)
Lemma empty_path_upload_yields_no_part :
  ~ (forall sniff ext toBase64 fromBase64 g messages w out w',
       Forall (fun msg => declared_binary msg = true
                          \/ exists s, msg = MString s) messages ->
       messageToParts sniff ext toBase64 fromBase64 g messages w
         = (Ret out, w') ->
       Forall2 (fun msg p =>
                  match msg with
                  | MString s => p = TextPart s
                  | _ => is_text p = false
                         /\ xorb (is_inline p) (is_fileData p) = true
                  end) messages out).
Proof.
  intros H.
  specialize (H Demo.fileTypeFromBuffer Demo.mime_getType Demo.toBase64
                Demo.fromBase64 Demo.gemini [FileUpload Demo.png ""]
                Demo.idle [] Demo.idle).
  assert (Hbad : Forall2 (fun msg p =>
                  match msg with
                  | MString s => p = TextPart s
                  | _ => is_text p = false
                         /\ xorb (is_inline p) (is_fileData p) = true
                  end) [FileUpload Demo.png ""] []).
  { apply H; [|reflexivity]. constructor; [|constructor]. left. reflexivity. }
  inversion Hbad.
Qed.

(** A PNG image given as a [FileUpload] with an empty path yields nothing;
    the same image given as an [ArrayBuffer] yields its inline part. *)
Lemma empty_path_upload_is_dropped_witness :
  declared_binary (FileUpload Demo.png "") = true
  /\ isFileUpload (FileUpload Demo.png "") = false
  /\ messageToParts Demo.fileTypeFromBuffer Demo.mime_getType Demo.toBase64
       Demo.fromBase64 Demo.gemini [FileUpload Demo.png ""] Demo.idle
     = (Ret [], Demo.idle)
  /\ messageToParts Demo.fileTypeFromBuffer Demo.mime_getType Demo.toBase64
       Demo.fromBase64 Demo.gemini [MArrayBuffer Demo.png] Demo.idle
     = (Ret [InlineDataPart "image/png" "iVBORw0KGgoAAAANSUhEUgAAAAEAAAABCAAAAAA6fptVAAAACklEQVR4nGNgAAAAAgAB4iG8MwAAAABJRU5ErkJggg=="], Demo.idle).
Proof.
  destruct (empty_path_upload_is_dropped Demo.fileTypeFromBuffer
              Demo.mime_getType Demo.toBase64 Demo.fromBase64 Demo.gemini
              Demo.png Demo.idle) as (Hd & Hi & Hrun & Hraw).
  split; [exact Hd|]. split; [exact Hi|]. split; [exact Hrun|].
  rewrite Hraw; [reflexivity|reflexivity|reflexivity|vm_compute; discriminate].
Defined.

(** A call mixing a string, raw bytes, a [FileUpload] with an empty path
    and a QuickTime [FileUpload]: three parts, in the order of the three
    handled elements. *)
Lemma parts_follow_handled_inputs_witness :
  messageToParts Demo.fileTypeFromBuffer Demo.mime_getType Demo.toBase64
    Demo.fromBase64 Demo.gemini
    [MString "hi"; MUint8Array Demo.png; FileUpload Demo.png "";
     FileUpload Demo.quicktime "clip.mov"]
    (World [Demo.uploaded; Demo.active] [])
  = (Ret [TextPart "hi"; InlineDataPart "image/png" "iVBORw0KGgoAAAANSUhEUgAAAAEAAAABCAAAAAA6fptVAAAACklEQVR4nGNgAAAAAgAB4iG8MwAAAABJRU5ErkJggg==";
          FileDataPart "video/mov" "https://files.example/abc"],
     World []
       [Fetch POST (upload_url Demo.gemini) (Some ("video/mov", Demo.quicktime));
        Fetch GET (status_url Demo.gemini "files/abc") None])
  /\ Forall2 (fun msg p =>
                match msg with
                | MString s => p = TextPart s
                | _ => is_text p = false
                       /\ xorb (is_inline p) (is_fileData p) = true
                end)
       (List.filter handled
          [MString "hi"; MUint8Array Demo.png; FileUpload Demo.png "";
           FileUpload Demo.quicktime "clip.mov"])
       [TextPart "hi"; InlineDataPart "image/png" "iVBORw0KGgoAAAANSUhEUgAAAAEAAAABCAAAAAA6fptVAAAACklEQVR4nGNgAAAAAgAB4iG8MwAAAABJRU5ErkJggg==";
        FileDataPart "video/mov" "https://files.example/abc"].
Proof.
  split; [reflexivity|].
  apply (parts_follow_handled_inputs Demo.fileTypeFromBuffer Demo.mime_getType
           Demo.toBase64 Demo.fromBase64 Demo.gemini
           [MString "hi"; MUint8Array Demo.png; FileUpload Demo.png "";
            FileUpload Demo.quicktime "clip.mov"]
           (World [Demo.uploaded; Demo.active] []) _
           (World []
              [Fetch POST (upload_url Demo.gemini)
                 (Some ("video/mov", Demo.quicktime));
               Fetch GET (status_url Demo.gemini "files/abc") None])).
  reflexivity.
Defined.


(** A list of a number-like value, an object without a path and a
    [FileUpload] with an empty path: nothing is returned, nothing fails. *)
Lemma unhandled_inputs_are_dropped_witness :
  messageToParts Demo.fileTypeFromBuffer Demo.mime_getType Demo.toBase64
    Demo.fromBase64 Demo.gemini
    [MOther; MObject (Some Demo.png) None; FileUpload Demo.png ""] Demo.idle
  = (Ret [], Demo.idle)
  /\ step Demo.fileTypeFromBuffer Demo.mime_getType Demo.toBase64 Demo.gemini
       (FileUpload Demo.png "") ([TextPart "hi"], 0) Demo.idle
     = (Ret ([TextPart "hi"], 0), Demo.idle).
Proof.
  destruct (unhandled_inputs_are_dropped Demo.fileTypeFromBuffer
              Demo.mime_getType Demo.toBase64 Demo.fromBase64 Demo.gemini)
    as (Hstep & _ & Hall & _).
  split.
  - apply Hall. reflexivity.
  - apply Hstep. reflexivity.
Defined.

(** C4 as stated fails: for the first eight bytes of a PNG file content
    sniffing rejects at the end of the buffer, so the strict call fails
    with the detector's error, not the unsupported-format one, and the
    default call returns nothing at all. *)
Lemma sniffing_failure_escapes_both_modes :
  ~ (forall sniff ext buffer filePath w,
       (sniffed_supported sniff buffer = false ->
        extension_supported ext filePath = false ->
        getFileType sniff ext buffer filePath true w
        = (Throw (Error unsupported_format_message), w))
       /\ exists s,
            getFileType sniff ext buffer filePath false w
            = (Ret (JString s), w)
            /\ In s supportedFileFormats).
Proof.
  intros H.
  destruct (H Demo.fileTypeFromBuffer Demo.mime_getType Demo.truncated_png
              None Demo.idle) as [_ (s & Hrun & _)].
  vm_compute in Hrun. discriminate Hrun.
Qed.

(** Text with a path of unknown extension: the strict call fails with the
    unsupported-format error.  A GIF image, which is sniffed and named as a
    type outside the supported set: the default call answers
    ["text/plain"].  A PNG file cut after its signature: both calls fail
    with the detector's error. *)
Lemma getFileType_strict_or_default_witness :
  getFileType Demo.fileTypeFromBuffer Demo.mime_getType Demo.plain
    (Some "notes.xyz") true Demo.idle
  = (Throw (Error unsupported_format_message), Demo.idle)
  /\ getFileType Demo.fileTypeFromBuffer Demo.mime_getType Demo.gif
       (Some "picture.gif") false Demo.idle
     = (Ret (JString "text/plain"), Demo.idle)
  /\ getFileType Demo.fileTypeFromBuffer Demo.mime_getType Demo.truncated_png
       (Some "picture.png") true Demo.idle
     = (Throw Demo.end_of_stream, Demo.idle)
  /\ getFileType Demo.fileTypeFromBuffer Demo.mime_getType Demo.truncated_png
       (Some "picture.png") false Demo.idle
     = (Throw Demo.end_of_stream, Demo.idle).
Proof.
  split; [|split; [|split]].
  - apply (proj1 (proj1 (getFileType_strict_or_default Demo.fileTypeFromBuffer
                           Demo.mime_getType Demo.plain (Some "notes.xyz")
                           Demo.idle) eq_refl));
      reflexivity.
  - destruct (proj2 (proj1 (getFileType_strict_or_default
                              Demo.fileTypeFromBuffer Demo.mime_getType
                              Demo.gif (Some "picture.gif") Demo.idle) eq_refl))
      as (s & Hrun & _ & Hdefault).
    rewrite Hrun, Hdefault; reflexivity.
  - apply (proj2 (getFileType_strict_or_default Demo.fileTypeFromBuffer
                    Demo.mime_getType Demo.truncated_png (Some "picture.png")
                    Demo.idle)).
    reflexivity.
  - apply (proj2 (getFileType_strict_or_default Demo.fileTypeFromBuffer
                    Demo.mime_getType Demo.truncated_png (Some "picture.png")
                    Demo.idle)).
    reflexivity.
Defined.

(** * Properties of the chat history *)

Lemma heap_extends_refl (h : heap) : heap_extends h h.
Proof. intros r l Hr. exists []. rewrite app_nil_r. exact Hr. Qed.

Lemma heap_extends_trans (h1 h2 h3 : heap) :
  heap_extends h1 h2 -> heap_extends h2 h3 -> heap_extends h1 h3.
Proof.
  intros H12 H23 r l Hr.
  destruct (H12 r l Hr) as (l' & Hr2). destruct (H23 r _ Hr2) as (l'' & Hr3).
  exists (l' ++ l''). rewrite app_assoc. exact Hr3.
Qed.

Lemma alloc_extends (h : heap) : heap_extends h (snd (alloc h)).
Proof.
  intros r l Hr. exists []. rewrite app_nil_r. cbn [alloc snd].
  apply lookup_app_l_Some. exact Hr.
Qed.

(** [push] adds one entry at the end of one array and touches nothing
    else. *)
Lemma push_lookup (r : ref) (x : Content) (h : heap) :
  (forall l, h !! r = Some l -> push r x h !! r = Some (l ++ [x]))
  /\ (forall r', r' <> r -> push r x h !! r' = h !! r')
  /\ length (push r x h) = length h.
Proof.
  unfold push. split; [|split].
  - intros l Hr. rewrite list_lookup_alter_eq, Hr. reflexivity.
  - intros r' Hne. apply list_lookup_alter_ne. congruence.
  - apply length_alter.
Qed.

Lemma push_extends (r : ref) (x : Content) (h : heap) :
  heap_extends h (push r x h).
Proof.
  intros r' l Hr'. destruct (push_lookup r x h) as (Hsame & Hother & _).
  destruct (decide (r' = r)) as [->|Hne].
  - exists [x]. apply Hsame. exact Hr'.
  - exists []. rewrite app_nil_r, Hother by exact Hne. exact Hr'.
Qed.

Section SessionFacts.

Variables GenerationConfig SafetySetting : Type.
Variables GenerateContentResult GenerateContentStreamResult : Type.

Local Abbreviation AskOptions' := (AskOptions GenerationConfig SafetySetting).
Local Abbreviation StartChatParams' :=
  (StartChatParams GenerationConfig SafetySetting).
Local Abbreviation Chat' := (Chat GenerationConfig SafetySetting).

Variable sendMessage :
  StartChatParams' -> list Part -> heap -> outcome GenerateContentResult * heap.
Variable sendMessageStream :
  StartChatParams' -> list Part -> heap ->
  outcome GenerateContentStreamResult * heap.

(** The wrapped client may record the exchange in the history array it is
    handed, and does nothing else to the arrays of the heap. *)
Hypothesis sendMessage_appends :
  forall params ps h, heap_extends h (snd (sendMessage params ps h)).
Hypothesis sendMessageStream_appends :
  forall params ps h, heap_extends h (snd (sendMessageStream params ps h)).

Lemma start_params_extends (g : Gemini) (options : AskOptions') (h : heap) :
  heap_extends h (snd (start_params _ _ g options h)).
Proof.
  unfold start_params. destruct (read (opt_history _ _ options)) as [r|].
  - apply heap_extends_refl.
  - cbn [snd]. apply (alloc_extends h).
Qed.

Lemma Gemini_ask_extends (g : Gemini) (message : string + list Part)
    (options : AskOptions') (h : heap) :
  heap_extends h (snd (Gemini_ask _ _ _ sendMessage g message options h)).
Proof using sendMessage_appends.
  unfold Gemini_ask.
  pose proof (start_params_extends g options h) as Hs.
  destruct (start_params _ _ g options h) as [params h1]. cbn [snd] in Hs.
  eapply heap_extends_trans; [exact Hs|apply sendMessage_appends].
Qed.

Lemma Gemini_askStream_extends (g : Gemini) (message : string + list Part)
    (options : AskOptions') (h : heap) :
  heap_extends h
    (snd (Gemini_askStream _ _ _ sendMessageStream g message options h)).
Proof using sendMessageStream_appends.
  unfold Gemini_askStream.
  pose proof (start_params_extends g options h) as Hs.
  destruct (start_params _ _ g options h) as [params h1]. cbn [snd] in Hs.
  eapply heap_extends_trans; [exact Hs|apply sendMessageStream_appends].
Qed.

(** C9. [appendMessage] adds exactly one entry at the end of the chat's
    history and changes no other entry and no other array; [ask],
    [askStream] and [createChat], on [Chat] and on [Gemini], leave every
    array of the heap with its former entries, in their order, as a
    prefix. *)
Theorem history_is_append_only :
  (forall (c : Chat') message h l,
     h !! chat_history _ _ c = Some l ->
     appendMessage _ _ c message h !! chat_history _ _ c = Some (l ++ [message])
     /\ (forall r, r <> chat_history _ _ c ->
                   appendMessage _ _ c message h !! r = h !! r)
     /\ length (appendMessage _ _ c message h) = length h)
  /\ (forall (c : Chat') message options h,
        heap_extends h (snd (Chat_ask _ _ _ sendMessage c message options h))
        /\ heap_extends h
             (snd (Chat_askStream _ _ _ sendMessageStream c message options h)))
  /\ (forall g message (options : AskOptions') h,
        heap_extends h (snd (Gemini_ask _ _ _ sendMessage g message options h))
        /\ heap_extends h
             (snd (Gemini_askStream _ _ _ sendMessageStream g message options h)))
  /\ (forall g (options : AskOptions') h,
        heap_extends h (snd (createChat _ _ g options h))
        /\ (forall r, read (opt_history _ _ options) = Some r ->
                      createChat _ _ g options h
                      = ({| chat_gemini := g; chat_history := r;
                            chat_options := options |}, h))
        /\ (read (opt_history _ _ options) = None ->
            snd (createChat _ _ g options h)
              !! chat_history _ _ (fst (createChat _ _ g options h))
            = Some [])).
Proof using sendMessage_appends sendMessageStream_appends.
  split; [|split; [|split]].
  - intros c message h l Hl. unfold appendMessage.
    destruct (push_lookup (chat_history _ _ c) message h) as (H1 & H2 & H3).
    auto.
  - intros c message options h. unfold Chat_ask, Chat_askStream.
    split; [apply Gemini_ask_extends|apply Gemini_askStream_extends].
  - intros g message options h.
    split; [apply Gemini_ask_extends|apply Gemini_askStream_extends].
  - intros g options h. unfold createChat, new_Chat.
    destruct (read (opt_history _ _ options)) as [r|].
    + split; [apply heap_extends_refl|].
      split; [intros r' [= <-]; reflexivity|discriminate].
    + split; [apply (alloc_extends h)|]. split; [discriminate|].
      intros _. cbn [alloc fst snd chat_history].
      apply list_lookup_middle. reflexivity.
Qed.

End SessionFacts.

Lemma Demo_sendMessage_appends (params : StartChatParams unit unit)
    (ps : list Part) (h : heap) :
  heap_extends h (snd (Demo.sendMessage params ps h)).
Proof.
  unfold Demo.sendMessage. cbn [snd].
  eapply heap_extends_trans; apply push_extends.
Qed.

(** A chat created on a one-entry history: appending the model's answer
    gives the two entries in order, and asking through the demo client
    keeps the first entry in place. *)
Lemma history_is_append_only_witness :
  appendMessage unit unit Demo.chat Demo.fine [[Demo.hello]]
  = [[Demo.hello; Demo.fine]]
  /\ snd (Chat_ask unit unit string Demo.sendMessage Demo.chat
            (inl "What is the capital of France?") (no_options unit unit)
            [[Demo.hello]])
     = [[Demo.hello;
         {| role := "user";
            parts := [TextPart "What is the capital of France?"] |};
         {| role := "model"; parts := [TextPart "ok"] |}]]
  /\ heap_extends [[Demo.hello]]
       (snd (Chat_ask unit unit string Demo.sendMessage Demo.chat
               (inl "What is the capital of France?") (no_options unit unit)
               [[Demo.hello]])).
Proof.
  split; [reflexivity|]. split; [reflexivity|].
  apply (history_is_append_only unit unit string string Demo.sendMessage
           Demo.sendMessage Demo_sendMessage_appends Demo_sendMessage_appends).
Defined.

(** * Further properties of the classifier *)

Section ClassifierExtras.

Variable fileTypeFromBuffer : bytes -> promise (option string).
Variable mime_getType : string -> option string.

Local Abbreviation getFileType' := (getFileType fileTypeFromBuffer mime_getType).
Local Abbreviation sniffed := (sniffed_supported fileTypeFromBuffer).
Local Abbreviation by_extension := (extension_supported mime_getType).

(** No value comes out of [formatMap[format] || format] as one of the two
    types the map rewrites. *)
Lemma normalize_not_mapped (v : jsval) :
  normalize v <> JString "audio/mpeg" /\ normalize v <> JString "video/quicktime".
Proof.
  unfold normalize, js_or, formatMap.
  destruct v as [| |s|]; cbn [ToString]; try (split; discriminate).
  destruct (String.eqb_spec s "audio/mpeg") as [->|H1];
    [split; discriminate|].
  destruct (String.eqb_spec s "video/quicktime") as [->|H2];
    [split; discriminate|].
  destruct (existsb (String.eqb s) Object_prototype_keys);
    cbn [truthy]; [split; discriminate|].
  split; congruence.
Qed.

(** X1. When the sniffed type is supported, the path hint and the strict
    flag play no part: the answer is the one for the buffer alone. *)
Theorem sniffing_takes_precedence (buffer : bytes) (filePath : option string)
    (strict : bool) (w : world) :
  sniffed buffer = true ->
  getFileType' buffer filePath strict w = getFileType' buffer None false w.
Proof.
  intros Hs. rewrite !getFileType_cases, Hs. reflexivity.
Qed.

(** X2. An empty path hint is no path hint: no extension lookup is made
    for it. *)
Theorem empty_path_is_no_path (buffer : bytes) (strict : bool) (w : world) :
  getFileType' buffer (Some "") strict w = getFileType' buffer None strict w.
Proof.
  rewrite !getFileType_cases. reflexivity.
Qed.

(** X3. The strict flag only decides what happens when nothing supported
    was found: the strict call returns a type exactly when a supported type
    was determined by sniffing or by extension, and then it is the type the
    default call returns. *)
Theorem strict_returns_iff_determined (buffer : bytes)
    (filePath : option string) (w w' : world) (v : jsval) :
  getFileType' buffer filePath true w = (Ret v, w') <->
  (sniffed buffer || by_extension filePath = true)
  /\ getFileType' buffer filePath false w = (Ret v, w').
Proof.
  rewrite !getFileType_cases.
  destruct (fileTypeFromBuffer buffer) as [fileType|e].
  2:{ split; [discriminate|]. intros [_ H]. discriminate H. }
  destruct (sniffed buffer); [cbn [orb]; tauto|].
  destruct (by_extension filePath); cbn [orb]; [tauto|].
  split; [discriminate|]. intros [H _]. discriminate H.
Qed.

(** X4. [getFileType] never answers ["audio/mpeg"] (although it is in the
    supported list) nor ["video/quicktime"]: both are rewritten by
    [formatMap] before the support test, whichever detector reported
    them. *)
Theorem mapped_types_are_never_returned (buffer : bytes)
    (filePath : option string) (strict : bool) (w w' : world) (s : string) :
  getFileType' buffer filePath strict w = (Ret (JString s), w') ->
  s <> "audio/mpeg" /\ s <> "video/quicktime".
Proof.
  rewrite getFileType_cases.
  destruct (fileTypeFromBuffer buffer) as [fileType|e] eqn:Hd; [|discriminate].
  destruct (sniffed buffer).
  { intros [= H _].
    destruct (normalize_not_mapped
                (optional_mime (sniffed_type fileTypeFromBuffer buffer))).
    split; congruence. }
  destruct (by_extension filePath).
  { intros [= H _].
    destruct (normalize_not_mapped
                (nullable_mime (mime_getType (default "" filePath)))).
    split; congruence. }
  destruct strict; [discriminate|].
  intros [= <- _]. split; discriminate.
Qed.

(** X5. The extension fallback is normalized like the sniffed type: when
    content sniffing settles without a supported type and the extension of
    a non-empty path maps to one of the two rewritten types, the rewritten
    type is the answer, in either mode.  When content sniffing rejects, the
    path is not looked at: the detector's error is the outcome. *)
Lemma extension_is_normalized (buffer : bytes) (p : string) (strict : bool)
    (w : world) :
  (forall fileType,
     fileTypeFromBuffer buffer = Resolves fileType ->
     includes supportedFileFormats (normalize (optional_mime fileType)) = false ->
     p <> "" ->
     (mime_getType p = Some "video/quicktime" ->
      getFileType' buffer (Some p) strict w = (Ret (JString "video/mov"), w))
     /\ (mime_getType p = Some "audio/mpeg" ->
         getFileType' buffer (Some p) strict w = (Ret (JString "audio/mp3"), w)))
  /\ (forall e,
        fileTypeFromBuffer buffer = Rejects e ->
        getFileType' buffer (Some p) strict w = (Throw e, w)).
Proof.
  split; [|intros e He; apply getFileType_rejects, He].
  intros fileType Hd Hs Hp. rewrite getFileType_cases.
  unfold sniffed_supported, sniffed_type. rewrite Hd, Hs. simpl.
  apply String.eqb_neq in Hp. rewrite Hp. cbn [negb andb].
  split; intros ->; reflexivity.
Qed.

End ClassifierExtras.

Lemma sniffing_takes_precedence_witness :
  getFileType Demo.fileTypeFromBuffer Demo.mime_getType Demo.png
    (Some "clip.mov") true Demo.idle
  = (Ret (JString "image/png"), Demo.idle).
Proof.
  rewrite (sniffing_takes_precedence Demo.fileTypeFromBuffer Demo.mime_getType
             Demo.png (Some "clip.mov") true Demo.idle eq_refl).
  reflexivity.
Defined.

Lemma mapped_types_are_never_returned_witness :
  getFileType Demo.fileTypeFromBuffer Demo.mime_getType Demo.mp3
    (Some "song.mp3") true Demo.idle
  = (Ret (JString "audio/mp3"), Demo.idle)
  /\ "audio/mp3" <> "audio/mpeg" /\ "audio/mp3" <> "video/quicktime".
Proof.
  split; [reflexivity|].
  apply (mapped_types_are_never_returned Demo.fileTypeFromBuffer
           Demo.mime_getType Demo.mp3 (Some "song.mp3") true
           Demo.idle Demo.idle "audio/mp3").
  reflexivity.
Defined.

(** Text named [clip.mov] is answered ["video/mov"] and a GIF image named
    [song.mp3] is answered ["audio/mp3"]; a PNG file cut after its
    signature is answered with the detector's error, whatever its name. *)
Lemma extension_is_normalized_witness :
  getFileType Demo.fileTypeFromBuffer Demo.mime_getType Demo.plain
    (Some "clip.mov") true Demo.idle
  = (Ret (JString "video/mov"), Demo.idle)
  /\ getFileType Demo.fileTypeFromBuffer Demo.mime_getType Demo.gif
       (Some "song.mp3") false Demo.idle
     = (Ret (JString "audio/mp3"), Demo.idle)
  /\ getFileType Demo.fileTypeFromBuffer Demo.mime_getType Demo.truncated_png
       (Some "clip.mov") false Demo.idle
     = (Throw Demo.end_of_stream, Demo.idle).
Proof.
  split; [|split].
  - apply (proj1 (extension_is_normalized Demo.fileTypeFromBuffer
                    Demo.mime_getType Demo.plain "clip.mov" true Demo.idle)
             None); [reflexivity|reflexivity|discriminate|reflexivity].
  - apply (proj1 (extension_is_normalized Demo.fileTypeFromBuffer
                    Demo.mime_getType Demo.gif "song.mp3" false Demo.idle)
             (Some "image/gif")); [reflexivity|reflexivity|discriminate|reflexivity].
  - apply (proj2 (extension_is_normalized Demo.fileTypeFromBuffer
                    Demo.mime_getType Demo.truncated_png "clip.mov" false
                    Demo.idle)).
    reflexivity.
Defined.

(** * Further properties of [uploadFile] *)

Section UploadExtras.

Variable g : Gemini.

Lemma posts_app (a b : list event) : posts (a ++ b) = posts a ++ posts b.
Proof.
  induction a as [|e a IH]; [reflexivity|].
  destruct e as [[|] url [payload|]|ms]; cbn [app posts]; try exact IH.
  rewrite IH. reflexivity.
Qed.

Lemma posts_none (ev : list event) : count_POST ev = 0%nat -> posts ev = [].
Proof.
  unfold count_POST.
  induction ev as [|e ev IH]; [reflexivity|].
  destruct e as [[|] url [payload|]|ms]; cbn [List.filter is_POST posts length];
    try discriminate; exact IH.
Qed.

(** The three ways one turn of the loop can go: it asks for another turn,
    having queried and then waited [waitTime]; or it ends the loop right
    after its query; or it ends the loop before any query, the upload
    response having named no file. *)
Lemma poll_once_cases (fileSendData : option file_info) (waitTime : Q)
    (w : world) :
  let r := poll_once g fileSendData waitTime w in
  (exists url,
     fst r = Ret (Some (Qmin (waitTime * 1.5) MAX_BACKOFF))
     /\ log (snd r) = log w ++ [Fetch GET url None; Sleep waitTime])
  \/ (exists url,
        (forall next, fst r <> Ret (Some next))
        /\ log (snd r) = log w ++ [Fetch GET url None])
  \/ (fileSendData = None
      /\ r = (Throw (Error (upload_error_prefix +:+ undefined_name_message)), w)).
Proof.
  destruct w as [script lg].
  unfold poll_once, try_catch, bind, read_field, ret, fetch, throw, emit.
  destruct fileSendData as [f|]; cbn [pending log fst snd];
    [|right; right; split; reflexivity].
  destruct script as [|[msg|data] rest]; cbn [fst snd log].
  - right; left. eexists. split; [discriminate|reflexivity].
  - right; left. eexists. split; [discriminate|reflexivity].
  - destruct (json_error data); cbn [fst snd log].
    + right; left. eexists. split; [discriminate|reflexivity].
    + destruct (bool_decide (json_state data = Some "ACTIVE")); cbn [fst snd log].
      * right; left. eexists. split; [discriminate|reflexivity].
      * left. eexists. split; [reflexivity|].
        rewrite <- app_assoc. reflexivity.
Qed.

Lemma next_wait_bounds (waitTime : Q) :
  (250 <= waitTime)%Q -> (waitTime <= 5000)%Q ->
  (waitTime <= Qmin (waitTime * 1.5) MAX_BACKOFF)%Q
  /\ (Qmin (waitTime * 1.5) MAX_BACKOFF <= 5000)%Q.
Proof.
  intros Hlo Hhi. unfold MAX_BACKOFF.
  destruct (Q.min_spec (waitTime * 1.5) 5000) as [[H E]|[H E]]; rewrite E;
    split; lra.
Qed.

(** What the loop adds to the log, started at a wait time within the
    bounds: no upload request; waits that never decrease and stay between
    the starting wait and the cap; one status query before each wait, and
    at most one more. *)
Lemma poll_shape (fuel : nat) (fileSendData : option file_info)
    (waitTime : Q) (w : world) :
  (250 <= waitTime)%Q -> (waitTime <= 5000)%Q ->
  exists ev,
    log (snd (poll fuel g fileSendData waitTime w)) = log w ++ ev
    /\ count_POST ev = 0%nat
    /\ Forall (fun q => (waitTime <= q)%Q /\ (q <= 5000)%Q) (sleeps ev)
    /\ StronglySorted Qle (sleeps ev)
    /\ (length (sleeps ev) <= count_GET ev <= S (length (sleeps ev)))%nat
    /\ (forall u, fst (poll fuel g fileSendData waitTime w) = Ret u ->
        count_GET ev = S (length (sleeps ev))).
Proof.
  revert waitTime w. induction fuel as [|fuel IH]; intros waitTime w Hlo Hhi.
  { exists []. cbn. rewrite app_nil_r.
    repeat split; try constructor; try lia. discriminate. }
  cbn [poll]. unfold bind.
  destruct (poll_once_cases fileSendData waitTime w)
    as [(url & Hr & Hlog)|[(url & Hr & Hlog)|(_ & Hr)]].
  - destruct (poll_once g fileSendData waitTime w) as [o w1].
    cbn [fst snd] in Hr, Hlog. subst o.
    destruct (next_wait_bounds waitTime Hlo Hhi) as [Hle Hcap].
    destruct (IH (Qmin (waitTime * 1.5) MAX_BACKOFF) w1) as
      (ev & Hev & Hp & Hb & Hs & Hc & Hret); [lra|exact Hcap|].
    exists ([Fetch GET url None; Sleep waitTime] ++ ev).
    rewrite Hev, Hlog, <- app_assoc.
    assert (Hb' : Forall (fun q => (waitTime <= q)%Q /\ (q <= 5000)%Q)
                    (sleeps ev)).
    { eapply Forall_impl; [|exact Hb]. cbn beta. intros q [H1 H2].
      split; [lra|exact H2]. }
    split; [reflexivity|]. cbn [app sleeps].
    split; [rewrite <- Hp; reflexivity|].
    split; [constructor; [split; lra|exact Hb']|].
    split; [constructor; [exact Hs|]; eapply Forall_impl; [|exact Hb'];
            cbn beta; tauto|].
    unfold count_GET in *. cbn [List.filter is_GET length].
    split; [lia|]. intros u Hu. rewrite (Hret u Hu). reflexivity.
  - destruct (poll_once g fileSendData waitTime w) as [[[next|]|e|] w1];
      cbn [fst snd] in Hr, Hlog |- *;
      try (exfalso; eapply Hr; reflexivity);
      (exists [Fetch GET url None]; split; [exact Hlog|];
       repeat split; try constructor; cbn; lia).
  - rewrite Hr. exists []. cbn. rewrite app_nil_r.
    repeat split; try constructor; try lia. discriminate.
Qed.

(** What a run of [uploadFile] adds to the log: its one upload request,
    then what the loop adds. *)
Lemma uploadFile_shape (file : bytes) (mimeType : string) (w : world) :
  exists ev,
    log (snd (uploadFile g file mimeType w))
      = log w ++ Fetch POST (upload_url g) (Some (mimeType, file)) :: ev
    /\ count_POST ev = 0%nat
    /\ Forall (fun q => (250 <= q)%Q /\ (q <= 5000)%Q) (sleeps ev)
    /\ StronglySorted Qle (sleeps ev)
    /\ (length (sleeps ev) <= count_GET ev <= S (length (sleeps ev)))%nat
    /\ (forall u, fst (uploadFile g file mimeType w) = Ret u ->
        count_GET ev = S (length (sleeps ev))).
Proof.
  destruct w as [script lg].
  assert (Hnil : exists ev : list event,
            lg ++ [Fetch POST (upload_url g) (Some (mimeType, file))]
              = lg ++ Fetch POST (upload_url g) (Some (mimeType, file)) :: ev
            /\ count_POST ev = 0%nat
            /\ Forall (fun q => (250 <= q)%Q /\ (q <= 5000)%Q) (sleeps ev)
            /\ StronglySorted Qle (sleeps ev)
            /\ (length (sleeps ev) <= count_GET ev <= S (length (sleeps ev)))%nat).
  { exists []. repeat split; try constructor; cbn; lia. }
  destruct script as [|[msg|up] script].
  - unfold uploadFile, bind, fetch. cbn [pending log fst snd].
    destruct Hnil as (ev & H1 & H2 & H3 & H4 & H5). exists ev.
    repeat split; try assumption; try lia. discriminate.
  - unfold uploadFile, bind, fetch. cbn [pending log fst snd].
    destruct Hnil as (ev & H1 & H2 & H3 & H4 & H5). exists ev.
    repeat split; try assumption; try lia. discriminate.
  - unfold uploadFile, bind at 1, fetch. cbn [pending log].
    unfold bind, poll_until_active. cbn [pending log fst snd].
    match goal with |- context [poll ?n g ?d ?t ?w0] =>
      destruct (poll_shape n d t w0) as (ev & Hev & Hp & Hb & Hs & Hc & Hret);
        [unfold INITIAL_WAIT; lra|unfold INITIAL_WAIT; lra|];
      destruct (poll n g d t w0) as [[[]|e|] w'] end;
      cbn [snd log fst] in Hev, Hret |- *; exists ev.
    + assert (Hlog : log (snd (read_field (json_file up) file_uri
                                 undefined_uri_message w')) = log w').
      { unfold read_field. destruct (json_file up); reflexivity. }
      rewrite Hlog, Hev, <- app_assoc.
      repeat split; try assumption; try lia. intros u _. eapply Hret. reflexivity.
    + rewrite Hev, <- app_assoc.
      repeat split; try assumption; try lia. discriminate.
    + rewrite Hev, <- app_assoc.
      repeat split; try assumption; try lia. discriminate.
Qed.

End UploadExtras.

Section UploadExtraTheorems.

Variable g : Gemini.

(** X6. Whatever the service answers, the waits of one [uploadFile] never
    decrease and each lies between 250 and 5000 milliseconds. *)
Theorem uploadFile_waits_bounded_and_monotone (file : bytes)
    (mimeType : string) (w : world) :
  exists ev,
    log (snd (uploadFile g file mimeType w)) = log w ++ ev
    /\ Forall (fun q => (250 <= q)%Q /\ (q <= 5000)%Q) (sleeps ev)
    /\ StronglySorted Qle (sleeps ev).
Proof.
  destruct (uploadFile_shape g file mimeType w)
    as (ev & Hlog & _ & Hb & Hs & _).
  exists (Fetch POST (upload_url g) (Some (mimeType, file)) :: ev).
  split; [exact Hlog|]. split; assumption.
Qed.

(** X7. Whatever the service answers, [uploadFile] first sends its upload
    request, and then every wait comes after a status query of its own:
    there are as many queries as waits, or one more, and exactly one more
    when the call returns. *)
Theorem uploadFile_queries_precede_waits (file : bytes) (mimeType : string)
    (w : world) :
  exists ev,
    log (snd (uploadFile g file mimeType w))
      = log w ++ Fetch POST (upload_url g) (Some (mimeType, file)) :: ev
    /\ count_POST ev = 0%nat
    /\ (length (sleeps ev) <= count_GET ev <= S (length (sleeps ev)))%nat
    /\ (forall u, fst (uploadFile g file mimeType w) = Ret u ->
        count_GET ev = S (length (sleeps ev))).
Proof.
  destruct (uploadFile_shape g file mimeType w)
    as (ev & Hlog & Hp & _ & _ & Hc & Hret).
  exists ev. auto.
Qed.

(** X8. When [uploadFile] returns, what it returns is the [uri] of the
    [file] object of the upload response, the first reply it consumed. *)
Theorem uploadFile_returns_uploaded_uri (file : bytes) (mimeType : string)
    (w w' : world) (u : string) :
  uploadFile g file mimeType w = (Ret u, w') ->
  exists up f rest,
    pending w = Body up :: rest /\ json_file up = Some f /\ u = file_uri f.
Proof.
  destruct w as [script lg].
  destruct script as [|[msg|up] script];
    unfold uploadFile, bind at 1, fetch; cbn [pending log].
  - intros H. discriminate H.
  - intros H. discriminate H.
  - unfold bind. destruct (poll_until_active _ _ _) as [[[]|e|] w1];
      try (intros H; discriminate H).
    unfold read_field, ret, throw. destruct (json_file up) as [f|] eqn:Hf;
      [|intros H; discriminate H].
    intros [= <- _]. exists up, f, script. auto.
Qed.

(** X9. When the upload response names no file, [uploadFile] fails before
    any status query, with the wrapped error of the property read, and
    consumes no further reply. *)
Theorem uploadFile_without_file (file : bytes) (mimeType : string) (up : json)
    (rest : list reply) (lg : list event) :
  json_file up = None ->
  uploadFile g file mimeType (World (Body up :: rest) lg)
  = (Throw (Error (upload_error_prefix +:+ undefined_name_message)),
     World rest (lg ++ [Fetch POST (upload_url g) (Some (mimeType, file))])).
Proof.
  intros Hf. unfold uploadFile, bind at 1, fetch. cbn [pending log].
  rewrite Hf. reflexivity.
Qed.

(** X10. A rejected upload request is rethrown as it is, without a status
    query; a rejected status query is rethrown wrapped in the upload error
    message.  Either way no further reply is consumed. *)
Theorem uploadFile_rejections (file : bytes) (mimeType : string) (msg : string)
    (rest : list reply) (lg : list event) :
  uploadFile g file mimeType (World (Rejected msg :: rest) lg)
  = (Throw (TypeError msg),
     World rest (lg ++ [Fetch POST (upload_url g) (Some (mimeType, file))]))
  /\ forall up f waiting,
       json_file up = Some f ->
       forallb nonterminal waiting = true ->
       uploadFile g file mimeType
         (World (Body up :: waiting ++ Rejected msg :: rest) lg)
       = (Throw (Error (upload_error_prefix +:+ msg)),
          World rest
            (((lg ++ [Fetch POST (upload_url g) (Some (mimeType, file))])
                ++ waiting_trace (status_url g (file_name f)) INITIAL_WAIT
                     (length waiting))
               ++ [Fetch GET (status_url g (file_name f)) None])).
Proof.
  split; [reflexivity|].
  intros up f waiting Hf Hwait.
  rewrite (uploadFile_started _ _ _ _ _ _ _ Hf).
  replace (S (length (waiting ++ Rejected msg :: rest)))
    with (length waiting + S (S (length rest)))%nat
    by (rewrite length_app; simpl; lia).
  rewrite poll_waiting by exact Hwait. reflexivity.
Qed.

(** X23. When the status queries are answered by any number of
    non-terminal replies and then by ["ACTIVE"], [uploadFile] returns the
    URI of the uploaded file, having made one query per reply, waited once
    per non-terminal reply, and left the replies that follow. *)
Theorem uploadFile_returns_once_active (file : bytes) (mimeType : string)
    (up ok : json) (f : file_info) (waiting rest : list reply)
    (lg : list event) :
  json_file up = Some f ->
  forallb nonterminal waiting = true ->
  json_error ok = None -> json_state ok = Some "ACTIVE" ->
  uploadFile g file mimeType
    (World (Body up :: waiting ++ Body ok :: rest) lg)
  = (Ret (file_uri f),
     World rest
       (((lg ++ [Fetch POST (upload_url g) (Some (mimeType, file))])
           ++ waiting_trace (status_url g (file_name f)) INITIAL_WAIT
                (length waiting))
          ++ [Fetch GET (status_url g (file_name f)) None])).
Proof. apply uploadFile_active. Qed.

End UploadExtraTheorems.

Lemma uploadFile_returns_once_active_witness :
  uploadFile Demo.gemini Demo.png "image/png"
    (World (Demo.uploaded :: [Demo.processing; Demo.processing]
              ++ Demo.active :: [Demo.failed]) [])
  = (Ret "https://files.example/abc",
     World [Demo.failed]
       [Fetch POST (upload_url Demo.gemini) (Some ("image/png", Demo.png));
        Fetch GET (status_url Demo.gemini "files/abc") None;
        Sleep 250;
        Fetch GET (status_url Demo.gemini "files/abc") None;
        Sleep (Qmin (250 * 1.5) MAX_BACKOFF);
        Fetch GET (status_url Demo.gemini "files/abc") None]).
Proof.
  apply (uploadFile_returns_once_active Demo.gemini Demo.png "image/png" _ _
           (FileInfo "files/abc" "https://files.example/abc")
           [Demo.processing; Demo.processing] [Demo.failed] []);
    reflexivity.
Defined.

Lemma uploadFile_returns_uploaded_uri_witness :
  exists up f rest,
    pending (World [Demo.uploaded; Demo.active] [])
      = Body up :: rest
    /\ json_file up = Some f
    /\ "https://files.example/abc" = file_uri f.
Proof.
  apply (uploadFile_returns_uploaded_uri Demo.gemini Demo.png "image/png"
           (World [Demo.uploaded; Demo.active] [])
           (World []
              [Fetch POST (upload_url Demo.gemini) (Some ("image/png", Demo.png));
               Fetch GET (status_url Demo.gemini "files/abc") None])).
  reflexivity.
Defined.

Lemma uploadFile_without_file_witness :
  uploadFile Demo.gemini Demo.png "image/png"
    (World [Demo.failed; Demo.active] [])
  = (Throw (Error (upload_error_prefix +:+ undefined_name_message)),
     World [Demo.active]
       [Fetch POST (upload_url Demo.gemini) (Some ("image/png", Demo.png))]).
Proof.
  apply (uploadFile_without_file Demo.gemini Demo.png "image/png" _
           [Demo.active] []).
  reflexivity.
Defined.

Lemma uploadFile_rejections_witness :
  uploadFile Demo.gemini Demo.png "image/png"
    (World (Demo.uploaded :: [Demo.processing]
              ++ Rejected "fetch failed" :: [Demo.active]) [])
  = (Throw (Error (upload_error_prefix +:+ "fetch failed")),
     World [Demo.active]
       [Fetch POST (upload_url Demo.gemini) (Some ("image/png", Demo.png));
        Fetch GET (status_url Demo.gemini "files/abc") None;
        Sleep 250;
        Fetch GET (status_url Demo.gemini "files/abc") None]).
Proof.
  apply (proj2 (uploadFile_rejections Demo.gemini Demo.png "image/png"
                  "fetch failed" [Demo.active] [])
           _ (FileInfo "files/abc" "https://files.example/abc")
           [Demo.processing]);
    reflexivity.
Defined.

(** * Further properties of [messageToParts] *)

Section AssemblerExtras.

Variable fileTypeFromBuffer : bytes -> promise (option string).
Variable mime_getType : string -> option string.
Variable toBase64 : bytes -> string.
Variable fromBase64 : string -> bytes.
Variable g : Gemini.

Local Abbreviation step' := (step fileTypeFromBuffer mime_getType toBase64 g).
Local Abbreviation for_of' := (for_of fileTypeFromBuffer mime_getType toBase64 g).
Local Abbreviation for_in' := (for_in fromBase64 g).
Local Abbreviation messageToParts' :=
  (messageToParts fileTypeFromBuffer mime_getType toBase64 fromBase64 g).
Local Abbreviation classify' := (classify fileTypeFromBuffer mime_getType).
Local Abbreviation assembled' :=
  (assembled fileTypeFromBuffer mime_getType toBase64 g).
Local Abbreviation promoted' := (promoted fromBase64 g).
Local Abbreviation video_inputs' :=
  (video_inputs fileTypeFromBuffer mime_getType).
Local Abbreviation inline_inputs' :=
  (inline_inputs fileTypeFromBuffer mime_getType).

(** The bytes the post-pass sends for an input that was inlined: the
    decoding of its encoding. *)
Local Abbreviation recoded :=
  (map (fun payload : string * bytes =>
          (fst payload, fromBase64 (toBase64 (snd payload))))).

(** One [uploadFile] adds exactly its own payload to the uploads. *)
Lemma uploadFile_posts (file : bytes) (mimeType : string) (w : world) :
  posts (log (snd (uploadFile g file mimeType w)))
  = posts (log w) ++ [(mimeType, file)].
Proof.
  destruct (uploadFile_shape g file mimeType w) as (ev & Hlog & Hp & _).
  rewrite Hlog, posts_app. cbn [posts]. rewrite (posts_none ev Hp).
  reflexivity.
Qed.

(** The uploads of a run of the loop are those of its video inputs, in
    order; its inline parts are those of its other binary inputs. *)
Lemma assembled_traffic (messages : list message) (w : world)
    (parts : list Part) (w' : world) :
  assembled' messages w parts w' ->
  posts (log w') = posts (log w) ++ video_inputs' messages
  /\ inline_payloads fromBase64 parts = recoded (inline_inputs' messages).
Proof.
  induction 1 as [w|msg rest w out w' Hh _ [IH1 IH2]
                 |msg rest w out w' Hh Hd Hv _ [IH1 IH2]
                 |msg buffer filePath fileURI rest w w1 out w' Hb Hv Hup _
                    [IH1 IH2]];
    cbn [video_inputs inline_inputs].
  - rewrite app_nil_r. split; reflexivity.
  - assert (Hb : binary_input msg = None).
    { destruct (binary_input msg) as [[b p]|] eqn:E; [|reflexivity].
      rewrite (handled_binary _ _ _ E) in Hh. discriminate. }
    rewrite Hb. split; assumption.
  - unfold video_input in Hv. unfold part_of.
    destruct (binary_input msg) as [[b p]|] eqn:Hb.
    + cbn zeta. rewrite Hv. split; [exact IH1|].
      destruct msg; try (simpl in Hb; discriminate);
        cbn [inline_payloads map fst snd]; rewrite IH2; reflexivity.
    + split; [exact IH1|].
      destruct msg; cbn [inline_payloads]; exact IH2.
  - rewrite Hb. cbn zeta. rewrite Hv. cbn [inline_payloads].
    split; [|exact IH2].
    rewrite IH1.
    pose proof (uploadFile_posts buffer (classify' buffer filePath) w) as Hp.
    rewrite Hup in Hp. cbn [snd] in Hp. rewrite Hp, <- app_assoc. reflexivity.
Qed.

(** The uploads of a run of the post-pass are its inline parts, decoded,
    in order. *)
Lemma promoted_traffic (parts : list Part) (w : world) (out : list Part)
    (w' : world) :
  promoted' parts w out w' ->
  posts (log w') = posts (log w) ++ inline_payloads fromBase64 parts.
Proof.
  induction 1 as [w|p rest w out w' Hp _ IH
                 |mimeType data fileURI rest w w1 out w' Hup _ IH].
  - rewrite app_nil_r. reflexivity.
  - rewrite IH. destruct p; try discriminate; reflexivity.
  - rewrite IH. cbn [inline_payloads].
    pose proof (uploadFile_posts (fromBase64 data) mimeType w) as Hp.
    rewrite Hup in Hp. cbn [snd] in Hp. rewrite Hp, <- app_assoc. reflexivity.
Qed.

(** X11. When [messageToParts] returns, the uploads it made are: one per
    video input, in input order, with the input's own bytes; then, if the
    total exceeded the threshold, one per other binary input, in input
    order, with the decoding of its base64 text.  Nothing else is
    uploaded and nothing twice. *)
Theorem messageToParts_uploads (messages : list message) (w : world)
    (out : list Part) (w' : world) :
  messageToParts' messages w = (Ret out, w') ->
  posts (log w')
  = posts (log w) ++ video_inputs' messages
      ++ (if (SIZE_THRESHOLD <? totalBytes_of messages)%Z
          then recoded (inline_inputs' messages) else []).
Proof.
  intros Hrun.
  apply (messageToParts_run fileTypeFromBuffer mime_getType toBase64
           fromBase64 g) in Hrun as (parts & w1 & Ha & Hpost).
  apply assembled_traffic in Ha as [H1 H2].
  destruct (SIZE_THRESHOLD <? totalBytes_of messages)%Z.
  - apply promoted_traffic in Hpost. rewrite Hpost, H1, H2, <- app_assoc.
    reflexivity.
  - destruct Hpost as [_ ->]. rewrite H1, app_nil_r. reflexivity.
Qed.

(** X12. With a base64 codec that decodes what it encodes, a promoted
    input is uploaded with the very bytes the caller passed. *)
Theorem promotion_uploads_original_bytes (messages : list message) (w : world)
    (out : list Part) (w' : world) :
  (forall buffer, fromBase64 (toBase64 buffer) = buffer) ->
  messageToParts' messages w = (Ret out, w') ->
  posts (log w')
  = posts (log w) ++ video_inputs' messages
      ++ (if (SIZE_THRESHOLD <? totalBytes_of messages)%Z
          then inline_inputs' messages else []).
Proof.
  intros Hcodec Hrun.
  apply (messageToParts_run fileTypeFromBuffer mime_getType toBase64
           fromBase64 g) in Hrun as (parts & w1 & Ha & Hpost).
  apply assembled_traffic in Ha as [H1 H2].
  assert (Hid : recoded (inline_inputs' messages) = inline_inputs' messages).
  { rewrite <- (map_id (inline_inputs' messages)) at 2.
    apply map_ext. intros [m b]. cbn [fst snd]. rewrite Hcodec. reflexivity. }
  destruct (SIZE_THRESHOLD <? totalBytes_of messages)%Z.
  - apply promoted_traffic in Hpost. rewrite Hpost, H1, H2, Hid, <- app_assoc.
    reflexivity.
  - destruct Hpost as [_ ->]. rewrite H1, app_nil_r. reflexivity.
Qed.

Lemma for_of_throws (messages : list message) (acc : list Part * Z)
    (w : world) (e : exn) (w' : world) :
  for_of' messages acc w = (Throw e, w') ->
  (exists file mimeType w1, uploadFile g file mimeType w1 = (Throw e, w'))
  \/ (exists msg buffer filePath,
        In msg messages
        /\ binary_input msg = Some (buffer, filePath)
        /\ fileTypeFromBuffer buffer = Rejects e).
Proof.
  revert acc w. induction messages as [|msg rest IH]; intros [parts total] w.
  { intros H. discriminate H. }
  assert (Hrest : forall acc1 w1,
            for_of' rest acc1 w1 = (Throw e, w') ->
            (exists file mimeType w1, uploadFile g file mimeType w1 = (Throw e, w'))
            \/ (exists msg0 buffer filePath,
                  In msg0 (msg :: rest)
                  /\ binary_input msg0 = Some (buffer, filePath)
                  /\ fileTypeFromBuffer buffer = Rejects e)).
  { intros acc1 w1 H. destruct (IH _ _ H) as [Hup|(m & b & p & Hin & Hb & Hd)];
      [left; exact Hup|right]. exists m, b, p. split; [right; exact Hin|auto]. }
  cbn [for_of]. unfold bind at 1.
  destruct (skipped msg) eqn:Hs.
  { rewrite (step_skipped _ _ _ _ _ _ _ Hs). apply Hrest. }
  destruct (binary_input msg) as [[buffer filePath]|] eqn:Hb.
  - rewrite (step_binary _ _ _ _ _ _ _ _ _ _ Hb).
    destruct (fileTypeFromBuffer buffer) as [fileType|e1] eqn:Hd.
    2:{ intros [= <- <-]. right. exists msg, buffer, filePath.
        split; [left; reflexivity|auto]. }
    destruct (is_video (classify' buffer filePath)); [|apply Hrest].
    unfold bind at 1.
    destruct (uploadFile g buffer (classify' buffer filePath) w)
      as [[u|e1|] w1] eqn:Hup.
    + unfold ret at 1. apply Hrest.
    + intros [= <- <-]. left. eauto.
    + intros H. discriminate H.
  - destruct msg as [s|b|b|[b|] p|]; try (simpl in Hb; discriminate);
      try (simpl in Hs; discriminate).
    + rewrite step_string. apply Hrest.
    + simpl in Hs, Hb. destruct (truthy_path p); discriminate.
Qed.

Lemma for_in_throws (indices : list nat) (parts : list Part) (w : world)
    (e : exn) (w' : world) :
  for_in' indices parts w = (Throw e, w') ->
  exists file mimeType w1, uploadFile g file mimeType w1 = (Throw e, w').
Proof.
  revert parts w. induction indices as [|idx rest IH]; intros parts w.
  { intros H. discriminate H. }
  cbn [for_in].
  destruct (parts !! idx) as [[text|mimeType data|mimeType fileUri]|];
    try apply IH.
  unfold bind at 1.
  destruct (uploadFile g (fromBase64 data) mimeType w) as [[u|e1|] w1] eqn:Hup.
  - apply IH.
  - intros [= <- <-]. eauto.
  - intros H. discriminate H.
Qed.

(** X13. [messageToParts] raises no error of its own: when it fails, one
    of its uploads has failed, or content sniffing has rejected for one of
    its binary inputs, and the error is that upload's or the detector's.
    It never rejects an input for its format or size.  And it does fail in
    those cases: when the loop reaches a binary input for which content
    sniffing rejects, or a video input whose upload fails, the call fails
    with that error, in the state reached. *)
Theorem messageToParts_failure_origins (messages : list message)
    (w : world) (e : exn) (w' : world) :
  (messageToParts' messages w = (Throw e, w') ->
   (exists file mimeType w1, uploadFile g file mimeType w1 = (Throw e, w'))
   \/ (exists msg buffer filePath,
         In msg messages
         /\ binary_input msg = Some (buffer, filePath)
         /\ fileTypeFromBuffer buffer = Rejects e))
  /\ (forall before msg after buffer filePath parts totalBytes w1,
        messages = before ++ msg :: after ->
        binary_input msg = Some (buffer, filePath) ->
        for_of' before ([], 0) w = (Ret (parts, totalBytes), w1) ->
        (fileTypeFromBuffer buffer = Rejects e ->
         messageToParts' messages w = (Throw e, w1))
        /\ (is_video (classify' buffer filePath) = true ->
            uploadFile g buffer (classify' buffer filePath) w1 = (Throw e, w') ->
            messageToParts' messages w = (Throw e, w'))).
Proof.
  split.
  - unfold messageToParts, bind at 1.
    destruct (for_of' messages ([], 0) w) as [[[parts total]|e1|] w1] eqn:Hloop.
    + destruct (SIZE_THRESHOLD <? total)%Z;
        [intros H; left; eapply for_in_throws; exact H|].
      intros H. discriminate H.
    + intros [= <- <-]. eapply for_of_throws. exact Hloop.
    + intros H. discriminate H.
  - intros before msg after buffer filePath parts totalBytes w1 -> Hb Hloop.
    assert (Hstart : forall r,
              step' msg (parts, totalBytes) w1 = (Throw e, r) ->
              messageToParts' (before ++ msg :: after) w = (Throw e, r)).
    { intros r Hstep. rewrite messageToParts_post_pass. unfold bind at 1.
      rewrite for_of_app. unfold bind at 1. rewrite Hloop.
      cbn [for_of]. unfold bind at 1. rewrite Hstep. reflexivity. }
    split.
    + intros Hd. apply Hstart.
      apply (step_rejected _ _ _ _ _ _ _ _ _ _ Hb Hd).
    + intros Hv Hup. apply Hstart.
      rewrite (step_settled _ _ _ _ _ _ _ _ _ _ Hb
                 (video_settles _ _ _ _ Hv)), Hv.
      unfold bind. rewrite Hup. reflexivity.
Qed.

(** X14. Strings pass through verbatim: a call with strings only returns
    one text part per string, in order, counts no bytes and leaves the
    network alone, however long the strings are. *)
Theorem text_only_messages (texts : list string) (w : world) :
  messageToParts' (map MString texts) w = (Ret (map TextPart texts), w)
  /\ totalBytes_of (map MString texts) = 0.
Proof.
  assert (Ht : totalBytes_of (map MString texts) = 0)
    by (induction texts as [|s texts IH]; [reflexivity|exact IH]).
  split; [|exact Ht].
  apply messageToParts_run. exists (map TextPart texts), w. rewrite Ht.
  split; [|split; reflexivity]. clear Ht.
  induction texts as [|s texts IH]; [constructor|].
  apply (assembled_direct fileTypeFromBuffer mime_getType toBase64 g
           (MString s) (map MString texts) w (map TextPart texts) w);
    [reflexivity|reflexivity|reflexivity|exact IH].
Qed.

(** X15. A binary input for which content sniffing settles, and for which
    neither sniffing nor the extension of its path gives a supported type,
    is not refused: it becomes an inline part labelled ["text/plain"], and
    its size is counted; alone in a call, it is returned as that part,
    without any request.  An input for which content sniffing rejects is
    not given that label: the loop body fails with the detector's error. *)
Theorem undetermined_input_is_inlined_as_text (msg : message) (buffer : bytes)
    (filePath : option string) (parts : list Part) (totalBytes : Z)
    (w : world) :
  binary_input msg = Some (buffer, filePath) ->
  (forall fileType,
     fileTypeFromBuffer buffer = Resolves fileType ->
     includes supportedFileFormats (normalize (optional_mime fileType)) = false ->
     extension_supported mime_getType filePath = false ->
     step' msg (parts, totalBytes) w
     = (Ret (parts ++ [InlineDataPart "text/plain" (toBase64 buffer)],
             totalBytes + byteLength buffer), w)
     /\ (byteLength buffer <= SIZE_THRESHOLD ->
         messageToParts' [msg] w
         = (Ret [InlineDataPart "text/plain" (toBase64 buffer)], w)))
  /\ (forall e,
        fileTypeFromBuffer buffer = Rejects e ->
        step' msg (parts, totalBytes) w = (Throw e, w)
        /\ messageToParts' [msg] w = (Throw e, w)).
Proof.
  intros Hb. split.
  - intros fileType Hd Hs He.
    assert (Hsettles : settles fileTypeFromBuffer buffer = true)
      by (unfold settles; rewrite Hd; reflexivity).
    assert (Hc : classify' buffer filePath = "text/plain").
    { unfold classify. rewrite getFileType_cases.
      unfold sniffed_supported, sniffed_type. rewrite Hd, Hs, He.
      reflexivity. }
    assert (Hstep : forall parts0 total0,
              step' msg (parts0, total0) w
              = (Ret (parts0 ++ [InlineDataPart "text/plain" (toBase64 buffer)],
                      total0 + byteLength buffer), w)).
    { intros parts0 total0.
      rewrite (step_settled _ _ _ _ _ _ _ _ _ _ Hb Hsettles), Hc.
      reflexivity. }
    split; [apply Hstep|]. intros Hsmall.
    unfold messageToParts, bind at 1. cbn [for_of]. unfold bind at 1.
    rewrite Hstep. cbn [ret app]. rewrite Z.add_0_l.
    assert (Hge : (SIZE_THRESHOLD <? byteLength buffer)%Z = false)
      by (apply Z.ltb_ge; exact Hsmall).
    rewrite Hge. reflexivity.
  - intros e Hd.
    split; [apply (step_rejected _ _ _ _ _ _ _ _ _ _ Hb Hd)|].
    unfold messageToParts, bind at 1. cbn [for_of]. unfold bind at 1.
    rewrite (step_rejected _ _ _ _ _ _ _ _ _ _ Hb Hd). reflexivity.
Qed.

End AssemblerExtras.

(** * Worked examples for the further properties of [messageToParts] *)

(** The demo codec decodes what it encodes. *)
Lemma Demo_sextet (k : N) :
  (k < 64)%N ->
  Ascii.eqb (Demo.sextet_char k) "="%char = false
  /\ Demo.index_of (Demo.sextet_char k) Demo.alphabet 0%N = Some k.
Proof.
  intros Hk.
  assert (Hall : forallb (fun n =>
            negb (Ascii.eqb (Demo.sextet_char (N.of_nat n)) "="%char)
            && match Demo.index_of (Demo.sextet_char (N.of_nat n))
                       Demo.alphabet 0%N with
               | Some j => N.eqb j (N.of_nat n)
               | None => false
               end) (seq 0 64) = true) by (vm_compute; reflexivity).
  rewrite forallb_forall in Hall.
  specialize (Hall (N.to_nat k)). rewrite N2Nat.id in Hall.
  assert (Hin : In (N.to_nat k) (seq 0 64)) by (apply in_seq; lia).
  apply Hall in Hin. apply andb_prop in Hin as [H1 H2].
  split; [destruct (Ascii.eqb _ _); [discriminate|reflexivity]|].
  destruct (Demo.index_of _ _ _) as [j|]; [|discriminate].
  apply N.eqb_eq in H2. congruence.
Qed.

Lemma Demo_sextets_cons (k : N) (s : string) :
  (k < 64)%N ->
  Demo.sextets (String (Demo.sextet_char k) s) = k :: Demo.sextets s.
Proof.
  intros Hk. destruct (Demo_sextet k Hk) as [H1 H2].
  cbn [Demo.sextets]. rewrite H1, H2. reflexivity.
Qed.

Lemma Demo_to_byte (x : Byte.byte) (n : N) :
  (n mod 256 = Byte.to_N x)%N -> Demo.to_byte n = x.
Proof.
  intros H. unfold Demo.to_byte. rewrite H, Byte.of_to_N. reflexivity.
Qed.

Local Ltac div_mod := zify; Z.to_euclidean_division_equations; lia.

Lemma Demo_base64_roundtrip (buffer : bytes) :
  Demo.fromBase64 (Demo.toBase64 buffer) = buffer.
Proof.
  unfold Demo.fromBase64.
  assert (H : forall n (buf : bytes), (length buf < n)%nat ->
              Demo.from_sextets (Demo.sextets (Demo.toBase64 buf)) = buf).
  { induction n as [|n IH]; intros buf Hn; [lia|].
    destruct buf as [|a [|b [|c rest]]].
    - reflexivity.
    - pose proof (Byte.to_N_bounded a) as Ha.
      change (Demo.toBase64 [a]) with
        (let n := (Byte.to_N a * 16)%N in
         String (Demo.sextet_char (n / 64))
           (String (Demo.sextet_char (n mod 64)) "==")).
      cbv zeta. rewrite !Demo_sextets_cons by div_mod.
      change (Demo.sextets "==") with (@nil N). cbn [Demo.from_sextets].
      f_equal. apply Demo_to_byte. div_mod.
    - pose proof (Byte.to_N_bounded a) as Ha.
      pose proof (Byte.to_N_bounded b) as Hb.
      change (Demo.toBase64 [a; b]) with
        (let n := (Byte.to_N a * 1024 + Byte.to_N b * 4)%N in
         String (Demo.sextet_char (n / 4096))
           (String (Demo.sextet_char (n / 64 mod 64))
              (String (Demo.sextet_char (n mod 64)) "="))).
      cbv zeta. rewrite !Demo_sextets_cons by div_mod.
      change (Demo.sextets "=") with (@nil N). cbn [Demo.from_sextets].
      f_equal; [|f_equal]; apply Demo_to_byte; div_mod.
    - pose proof (Byte.to_N_bounded a) as Ha.
      pose proof (Byte.to_N_bounded b) as Hb.
      pose proof (Byte.to_N_bounded c) as Hc.
      change (Demo.toBase64 (a :: b :: c :: rest)) with
        (let n := (Byte.to_N a * 65536 + Byte.to_N b * 256 + Byte.to_N c)%N in
         String (Demo.sextet_char (n / 262144))
           (String (Demo.sextet_char (n / 4096 mod 64))
              (String (Demo.sextet_char (n / 64 mod 64))
                 (String (Demo.sextet_char (n mod 64)) (Demo.toBase64 rest))))).
      cbv zeta. rewrite !Demo_sextets_cons by div_mod.
      cbn [Demo.from_sextets]. rewrite IH by (simpl in Hn; lia).
      f_equal; [|f_equal; [|f_equal]]; apply Demo_to_byte; div_mod. }
  apply (H (S (length buffer))). lia.
Qed.

Lemma messageToParts_uploads_witness :
  posts [Fetch POST (upload_url Demo.gemini) (Some ("video/mp4", Demo.mp4));
         Fetch GET (status_url Demo.gemini "files/abc") None]
  = posts [] ++ video_inputs Demo.fileTypeFromBuffer Demo.mime_getType
                  [MUint8Array Demo.mp4; MUint8Array Demo.png]
      ++ (if (SIZE_THRESHOLD
              <? totalBytes_of [MUint8Array Demo.mp4; MUint8Array Demo.png])%Z
          then map (fun payload : string * bytes =>
                      (fst payload,
                       Demo.fromBase64 (Demo.toBase64 (snd payload))))
                 (inline_inputs Demo.fileTypeFromBuffer Demo.mime_getType
                    [MUint8Array Demo.mp4; MUint8Array Demo.png])
          else []).
Proof.
  apply (messageToParts_uploads Demo.fileTypeFromBuffer Demo.mime_getType
           Demo.toBase64 Demo.fromBase64 Demo.gemini
           [MUint8Array Demo.mp4; MUint8Array Demo.png]
           (World [Demo.uploaded; Demo.active] [])
           [FileDataPart "video/mp4" "https://files.example/abc";
            InlineDataPart "image/png" "iVBORw0KGgoAAAANSUhEUgAAAAEAAAABCAAAAAA6fptVAAAACklEQVR4nGNgAAAAAgAB4iG8MwAAAABJRU5ErkJggg=="]
           (World []
              [Fetch POST (upload_url Demo.gemini) (Some ("video/mp4", Demo.mp4));
               Fetch GET (status_url Demo.gemini "files/abc") None])).
  reflexivity.
Defined.

(** The run of the 20 MiB scenario, from the loop and the post-pass. *)
Lemma big_png_run :
  messageToParts Demo.fileTypeFromBuffer Demo.mime_getType Demo.toBase64
    Demo.fromBase64 Demo.gemini [MUint8Array Demo.big_png]
    (World [Demo.uploaded; Demo.active] [])
  = (Ret [FileDataPart "image/png" "https://files.example/abc"],
     World []
       [Fetch POST (upload_url Demo.gemini)
          (Some ("image/png", Demo.fromBase64 (Demo.toBase64 Demo.big_png)));
        Fetch GET (status_url Demo.gemini "files/abc") None]).
Proof.
  apply messageToParts_run.
  exists [InlineDataPart "image/png" (Demo.toBase64 Demo.big_png)],
         (World [Demo.uploaded; Demo.active] []).
  split.
  - apply (assembled_direct Demo.fileTypeFromBuffer Demo.mime_getType
             Demo.toBase64 Demo.gemini (MUint8Array Demo.big_png) []
             (World [Demo.uploaded; Demo.active] []) []
             (World [Demo.uploaded; Demo.active] []));
      [reflexivity|reflexivity|reflexivity|constructor].
  - rewrite (proj2 (Z.ltb_lt _ _) big_png_total).
    apply (promoted_upload Demo.fromBase64 Demo.gemini "image/png"
             (Demo.toBase64 Demo.big_png) "https://files.example/abc" []
             (World [Demo.uploaded; Demo.active] [])
             (World []
                [Fetch POST (upload_url Demo.gemini)
                   (Some ("image/png",
                          Demo.fromBase64 (Demo.toBase64 Demo.big_png)));
                 Fetch GET (status_url Demo.gemini "files/abc") None]));
      [reflexivity|constructor].
Qed.

(** In the 20 MiB scenario the one upload carries the caller's buffer. *)
Lemma promotion_uploads_original_bytes_witness :
  posts [Fetch POST (upload_url Demo.gemini)
           (Some ("image/png", Demo.fromBase64 (Demo.toBase64 Demo.big_png)));
         Fetch GET (status_url Demo.gemini "files/abc") None]
  = [("image/png", Demo.big_png)].
Proof.
  pose proof (promotion_uploads_original_bytes Demo.fileTypeFromBuffer
                Demo.mime_getType Demo.toBase64 Demo.fromBase64 Demo.gemini
                [MUint8Array Demo.big_png]
                (World [Demo.uploaded; Demo.active] []) _ _
                Demo_base64_roundtrip big_png_run) as H.
  rewrite (proj2 (Z.ltb_lt _ _) big_png_total) in H.
  exact H.
Defined.

(** A call whose upload is answered with an error fails with the error of
    that upload; a call with a PNG file cut after its signature fails with
    the error of the detector. *)
Lemma messageToParts_failure_origins_witness :
  ((exists file mimeType w1,
      uploadFile Demo.gemini file mimeType w1
      = (Throw (Error (upload_error_prefix +:+ api_error_prefix
                         +:+ "quota exceeded")),
         World []
           [Fetch POST (upload_url Demo.gemini)
              (Some ("video/mov", Demo.quicktime));
            Fetch GET (status_url Demo.gemini "files/abc") None]))
   \/ (exists msg buffer filePath,
         In msg [MString "hi"; MUint8Array Demo.quicktime]
         /\ binary_input msg = Some (buffer, filePath)
         /\ Demo.fileTypeFromBuffer buffer
            = Rejects (Error (upload_error_prefix +:+ api_error_prefix
                                +:+ "quota exceeded"))))
  /\ messageToParts Demo.fileTypeFromBuffer Demo.mime_getType Demo.toBase64
       Demo.fromBase64 Demo.gemini
       [MString "hi"; MUint8Array Demo.truncated_png; MUint8Array Demo.png]
       Demo.idle
     = (Throw Demo.end_of_stream, Demo.idle).
Proof.
  split.
  - apply (proj1 (messageToParts_failure_origins Demo.fileTypeFromBuffer
                    Demo.mime_getType Demo.toBase64 Demo.fromBase64 Demo.gemini
                    [MString "hi"; MUint8Array Demo.quicktime]
                    (World [Demo.uploaded; Demo.failed] []) _ _)).
    reflexivity.
  - apply (proj1 (proj2 (messageToParts_failure_origins Demo.fileTypeFromBuffer
                           Demo.mime_getType Demo.toBase64 Demo.fromBase64
                           Demo.gemini
                           [MString "hi"; MUint8Array Demo.truncated_png;
                            MUint8Array Demo.png]
                           Demo.idle Demo.end_of_stream Demo.idle)
                    [MString "hi"] (MUint8Array Demo.truncated_png)
                    [MUint8Array Demo.png] Demo.truncated_png None
                    [TextPart "hi"] 0 Demo.idle eq_refl eq_refl eq_refl));
      reflexivity.
Defined.

(** A GIF image named [picture.gif]: sniffed and named as a type outside
    the supported set, it is inlined as ["text/plain"].  A PNG file cut
    after its signature is not: the call fails. *)
Lemma undetermined_input_is_inlined_as_text_witness :
  (step Demo.fileTypeFromBuffer Demo.mime_getType Demo.toBase64 Demo.gemini
     (FileUpload Demo.gif "picture.gif") ([], 0) Demo.idle
   = (Ret ([] ++ [InlineDataPart "text/plain" (Demo.toBase64 Demo.gif)],
           0 + byteLength Demo.gif), Demo.idle)
   /\ messageToParts Demo.fileTypeFromBuffer Demo.mime_getType Demo.toBase64
        Demo.fromBase64 Demo.gemini [FileUpload Demo.gif "picture.gif"]
        Demo.idle
      = (Ret [InlineDataPart "text/plain" "R0lGODlhAQABAAAAADs="], Demo.idle))
  /\ step Demo.fileTypeFromBuffer Demo.mime_getType Demo.toBase64 Demo.gemini
       (FileUpload Demo.truncated_png "picture.png") ([], 0) Demo.idle
     = (Throw Demo.end_of_stream, Demo.idle)
  /\ messageToParts Demo.fileTypeFromBuffer Demo.mime_getType Demo.toBase64
       Demo.fromBase64 Demo.gemini [FileUpload Demo.truncated_png "picture.png"]
       Demo.idle
     = (Throw Demo.end_of_stream, Demo.idle).
Proof.
  split.
  - destruct (proj1 (undetermined_input_is_inlined_as_text
                       Demo.fileTypeFromBuffer Demo.mime_getType Demo.toBase64
                       Demo.fromBase64 Demo.gemini
                       (FileUpload Demo.gif "picture.gif") Demo.gif
                       (Some "picture.gif") [] 0 Demo.idle eq_refl)
                (Some "image/gif") eq_refl eq_refl eq_refl) as [Hstep Hrun].
    split; [exact Hstep|]. rewrite Hrun; [reflexivity|].
    vm_compute. discriminate.
  - apply (proj2 (undetermined_input_is_inlined_as_text
                    Demo.fileTypeFromBuffer Demo.mime_getType Demo.toBase64
                    Demo.fromBase64 Demo.gemini
                    (FileUpload Demo.truncated_png "picture.png")
                    Demo.truncated_png (Some "picture.png") [] 0 Demo.idle
                    eq_refl)).
    reflexivity.
Defined.

(** * Further properties of the chat session *)

Section SessionExtras.

Variables GenerationConfig SafetySetting : Type.
Variables GenerateContentResult GenerateContentStreamResult : Type.

Local Abbreviation AskOptions' := (AskOptions GenerationConfig SafetySetting).
Local Abbreviation StartChatParams' :=
  (StartChatParams GenerationConfig SafetySetting).
Local Abbreviation Chat' := (Chat GenerationConfig SafetySetting).

Variable sendMessage :
  StartChatParams' -> list Part -> heap -> outcome GenerateContentResult * heap.
Variable sendMessageStream :
  StartChatParams' -> list Part -> heap ->
  outcome GenerateContentStreamResult * heap.

Local Abbreviation Chat_ask' := (Chat_ask _ _ _ sendMessage).
Local Abbreviation Chat_askStream' := (Chat_askStream _ _ _ sendMessageStream).
Local Abbreviation Gemini_ask' := (Gemini_ask _ _ _ sendMessage).
Local Abbreviation Gemini_askStream' :=
  (Gemini_askStream _ _ _ sendMessageStream).

(** Adding [history: this.history] in front of the merged options changes
    nothing but the history, and that only when the merged options have no
    [history] key. *)
Lemma with_history_params (c : Chat') (merged : AskOptions') (g : Gemini)
    (history : ref) :
  ask_params _ _ g (with_history _ _ c merged) history
  = ask_params _ _ g merged history
  /\ read (opt_history _ _ (with_history _ _ c merged))
     = match opt_history _ _ merged with
       | None => Some (chat_history _ _ c)
       | Some v => v
       end.
Proof.
  unfold with_history, spread, ask_params, spread_prop. cbn.
  split.
  - destruct (opt_model _ _ merged), (opt_generationConfig _ _ merged),
      (opt_safetySettings _ _ merged), (opt_systemInstruction _ _ merged);
      reflexivity.
  - destruct (opt_history _ _ merged); reflexivity.
Qed.

Lemma start_params_cases (g : Gemini) (options : AskOptions') (h : heap) :
  start_params _ _ g options h
  = match read (opt_history _ _ options) with
    | Some r => (ask_params _ _ g options r, h)
    | None => (ask_params _ _ g options (length h), h ++ [[]])
    end.
Proof.
  unfold start_params, ask_params, alloc.
  destruct (read (opt_history _ _ options)); reflexivity.
Qed.

(** The history [Chat.ask] and [Chat.askStream] hand to the wrapped
    client, by the [history] key of the merged options. *)
Lemma Chat_ask_history_choice_aux (c : Chat') (message : string + list Part)
    (options : AskOptions') (h : heap) :
  let merged := spread _ _ (chat_options _ _ c) options in
  let g := chat_gemini _ _ c in
  let ps := message_parts message in
  (opt_history _ _ merged = None ->
   Chat_ask' c message options h
     = sendMessage (ask_params _ _ g merged (chat_history _ _ c)) ps h
   /\ Chat_askStream' c message options h
      = sendMessageStream (ask_params _ _ g merged (chat_history _ _ c)) ps h)
  /\ (forall r, opt_history _ _ merged = Some (Some r) ->
      Chat_ask' c message options h
        = sendMessage (ask_params _ _ g merged r) ps h
      /\ Chat_askStream' c message options h
         = sendMessageStream (ask_params _ _ g merged r) ps h)
  /\ (opt_history _ _ merged = Some None ->
      Chat_ask' c message options h
        = sendMessage (ask_params _ _ g merged (length h)) ps (h ++ [[]])
      /\ Chat_askStream' c message options h
         = sendMessageStream (ask_params _ _ g merged (length h)) ps
             (h ++ [[]])).
Proof.
  cbv zeta. unfold Chat_ask, Chat_askStream, Gemini_ask, Gemini_askStream.
  rewrite start_params_cases.
  set (merged := spread _ _ (chat_options _ _ c) options).
  destruct (with_history_params c merged (chat_gemini _ _ c)
              (chat_history _ _ c)) as [_ Hread].
  rewrite Hread.
  split; [|split].
  - intros ->. rewrite (proj1 (with_history_params c merged _ _)).
    split; reflexivity.
  - intros r ->. rewrite (proj1 (with_history_params c merged _ _)).
    split; reflexivity.
  - intros ->. rewrite (proj1 (with_history_params c merged _ _)).
    split; reflexivity.
Qed.

(** X16. Which history the wrapped client is handed by [Chat.ask] and
    [Chat.askStream], [merged] being the chat's options overridden by the
    call's: the chat's own array when [merged] has no [history] key; the
    array under that key when there is one, instead of the chat's; and a
    fresh empty array when the key is there with value [undefined].  The
    other parameters are read from [merged]. *)
Theorem Chat_ask_history_choice (c : Chat') (message : string + list Part)
    (options : AskOptions') (h : heap) :
  let merged := spread _ _ (chat_options _ _ c) options in
  let g := chat_gemini _ _ c in
  let ps := message_parts message in
  (opt_history _ _ merged = None ->
   Chat_ask' c message options h
     = sendMessage (ask_params _ _ g merged (chat_history _ _ c)) ps h
   /\ Chat_askStream' c message options h
      = sendMessageStream (ask_params _ _ g merged (chat_history _ _ c)) ps h)
  /\ (forall r, opt_history _ _ merged = Some (Some r) ->
      Chat_ask' c message options h
        = sendMessage (ask_params _ _ g merged r) ps h
      /\ Chat_askStream' c message options h
         = sendMessageStream (ask_params _ _ g merged r) ps h)
  /\ (opt_history _ _ merged = Some None ->
      Chat_ask' c message options h
        = sendMessage (ask_params _ _ g merged (length h)) ps (h ++ [[]])
      /\ Chat_askStream' c message options h
         = sendMessageStream (ask_params _ _ g merged (length h)) ps
             (h ++ [[]])).
Proof. apply Chat_ask_history_choice_aux. Qed.

(** The history of a chat after a run of [appendMessage]s. *)
Lemma appendMessages_lookup (c : Chat') (messages : list Content) (h : heap)
    (l : list Content) :
  h !! chat_history _ _ c = Some l ->
  appendMessages _ _ c messages h !! chat_history _ _ c = Some (l ++ messages)
  /\ (forall r, r <> chat_history _ _ c ->
                appendMessages _ _ c messages h !! r = h !! r)
  /\ length (appendMessages _ _ c messages h) = length h.
Proof.
  unfold appendMessages. revert h l.
  induction messages as [|m messages IH]; intros h l Hl; cbn [fold_left].
  - rewrite app_nil_r. auto.
  - unfold appendMessage at 2 4 6.
    destruct (push_lookup (chat_history _ _ c) m h) as (H1 & H2 & H3).
    destruct (IH (push (chat_history _ _ c) m h) (l ++ [m]) (H1 l Hl))
      as (I1 & I2 & I3).
    rewrite I1, I3, H3, <- app_assoc. split; [reflexivity|].
    split; [|reflexivity]. intros r Hr. rewrite (I2 r Hr). apply H2, Hr.
Qed.

(** X17. Messages appended one after another end up at the end of the
    chat's history in the order of the calls; nothing else in the heap
    changes. *)
Theorem appendMessage_sequence (c : Chat') (messages : list Content)
    (h : heap) (l : list Content) :
  h !! chat_history _ _ c = Some l ->
  appendMessages _ _ c messages h !! chat_history _ _ c = Some (l ++ messages)
  /\ (forall r, r <> chat_history _ _ c ->
                appendMessages _ _ c messages h !! r = h !! r)
  /\ length (appendMessages _ _ c messages h) = length h.
Proof. apply appendMessages_lookup. Qed.

(** X18. The round trip of a session: a chat created on a history array,
    or with no [history] option at all, then extended by [appendMessage],
    hands the wrapped client an array that holds the initial entries
    followed by the appended ones, when the call itself names no
    history. *)
Theorem appended_history_reaches_client (g : Gemini) (options : AskOptions')
    (h0 : heap) (messages : list Content) (message : string + list Part)
    (call : AskOptions') :
  opt_history _ _ options <> Some None ->
  opt_history _ _ call = None ->
  (forall r, opt_history _ _ options = Some (Some r) -> is_Some (h0 !! r)) ->
  let c := fst (createChat _ _ g options h0) in
  let h1 := snd (createChat _ _ g options h0) in
  let h2 := appendMessages _ _ c messages h1 in
  exists initial params,
    h1 !! chat_history _ _ c = Some initial
    /\ Chat_ask' c message call h2 = sendMessage params (message_parts message) h2
    /\ Chat_askStream' c message call h2
       = sendMessageStream params (message_parts message) h2
    /\ h2 !! sc_history _ _ params = Some (initial ++ messages).
Proof.
  intros Hdef Hcall Hvalid. cbv zeta.
  assert (Hc : chat_options _ _ (fst (createChat _ _ g options h0)) = options).
  { unfold createChat, new_Chat.
    destruct (read (opt_history _ _ options)); reflexivity. }
  assert (Hinit : exists initial,
            snd (createChat _ _ g options h0)
              !! chat_history _ _ (fst (createChat _ _ g options h0))
            = Some initial).
  { unfold createChat, new_Chat.
    destruct (opt_history _ _ options) as [[r|]|] eqn:Ho; cbn [read].
    - destruct (Hvalid r eq_refl) as [l Hl]. exists l. exact Hl.
    - congruence.
    - exists []. cbn [alloc fst snd chat_history].
      apply list_lookup_middle. reflexivity. }
  destruct Hinit as (initial & Hinit).
  set (c := fst (createChat _ _ g options h0)) in *.
  set (h1 := snd (createChat _ _ g options h0)) in *.
  destruct (appendMessages_lookup c messages h1 initial Hinit) as (Happ & _ & _).
  destruct (Chat_ask_history_choice_aux c message call
              (appendMessages _ _ c messages h1)) as (Hnone & Hsome & _).
  destruct (opt_history _ _ options) as [[r|]|] eqn:Ho; [| congruence |].
  - assert (Hr : chat_history _ _ c = r).
    { subst c. unfold createChat, new_Chat. rewrite Ho. reflexivity. }
    exists initial, (ask_params _ _ (chat_gemini _ _ c)
                       (spread _ _ (chat_options _ _ c) call) r).
    assert (Hm : opt_history _ _ (spread _ _ (chat_options _ _ c) call)
                 = Some (Some r)).
    { rewrite Hc. unfold spread. cbn. rewrite Hcall, Ho. reflexivity. }
    split; [exact Hinit|].
    split; [apply (Hsome r Hm)|]. split; [apply (Hsome r Hm)|].
    cbn [ask_params sc_history]. rewrite <- Hr. exact Happ.
  - exists initial, (ask_params _ _ (chat_gemini _ _ c)
                       (spread _ _ (chat_options _ _ c) call)
                       (chat_history _ _ c)).
    assert (Hm : opt_history _ _ (spread _ _ (chat_options _ _ c) call) = None).
    { rewrite Hc. unfold spread. cbn. rewrite Hcall, Ho. reflexivity. }
    split; [exact Hinit|].
    split; [apply (Hnone Hm)|]. split; [apply (Hnone Hm)|].
    cbn [ask_params sc_history]. exact Happ.
Qed.

(** X19. A chat created with a [history] key whose value is [undefined]
    keeps a history of its own that the wrapped client never sees: the
    key stays in the chat's options and overrides [this.history], so each
    call hands over a fresh empty array, whatever was appended. *)
Theorem undefined_history_option_hides_session (g : Gemini)
    (options : AskOptions') (h0 : heap) (messages : list Content)
    (message : string + list Part) (call : AskOptions') :
  opt_history _ _ options = Some None ->
  opt_history _ _ call = None ->
  let c := fst (createChat _ _ g options h0) in
  let h1 := snd (createChat _ _ g options h0) in
  let h2 := appendMessages _ _ c messages h1 in
  exists params,
    h2 !! chat_history _ _ c = Some messages
    /\ Chat_ask' c message call h2
       = sendMessage params (message_parts message) (h2 ++ [[]])
    /\ Chat_askStream' c message call h2
       = sendMessageStream params (message_parts message) (h2 ++ [[]])
    /\ sc_history _ _ params <> chat_history _ _ c
    /\ (h2 ++ [[]]) !! sc_history _ _ params = Some [].
Proof.
  intros Ho Hcall. cbv zeta.
  assert (Hcreate : createChat _ _ g options h0
                    = ({| chat_gemini := g; chat_history := length h0;
                          chat_options := options |}, h0 ++ [[]])).
  { unfold createChat, new_Chat. rewrite Ho. reflexivity. }
  rewrite Hcreate. cbn [fst snd].
  set (c := {| chat_gemini := g; chat_history := length h0;
               chat_options := options |}).
  assert (Hinit : (h0 ++ [[]]) !! chat_history _ _ c = Some [])
    by (apply list_lookup_middle; reflexivity).
  destruct (appendMessages_lookup c messages (h0 ++ [[]]) [] Hinit)
    as (Happ & _ & Hlen).
  set (h2 := appendMessages _ _ c messages (h0 ++ [[]])) in *.
  destruct (Chat_ask_history_choice_aux c message call h2) as (_ & _ & Hundef).
  assert (Hm : opt_history _ _ (spread _ _ (chat_options _ _ c) call)
               = Some None).
  { unfold spread. cbn. rewrite Hcall, Ho. reflexivity. }
  exists (ask_params _ _ (chat_gemini _ _ c)
            (spread _ _ (chat_options _ _ c) call) (length h2)).
  split; [exact Happ|]. split; [apply (Hundef Hm)|].
  split; [apply (Hundef Hm)|]. cbn [ask_params sc_history chat_history c].
  split.
  - rewrite Hlen, length_app. cbn. lia.
  - apply list_lookup_middle. reflexivity.
Qed.

(** X20. [createChat] does not copy the history it is given: the chat
    works on the caller's array, so a message appended through one chat
    is in the caller's array and in every other chat created on it. *)
Theorem chats_on_one_array_share_it (g1 g2 : Gemini) (o1 o2 : AskOptions')
    (h : heap) (r : ref) (l : list Content) (message : Content) :
  opt_history _ _ o1 = Some (Some r) ->
  opt_history _ _ o2 = Some (Some r) ->
  h !! r = Some l ->
  let c1 := fst (createChat _ _ g1 o1 h) in
  let c2 := fst (createChat _ _ g2 o2 h) in
  snd (createChat _ _ g1 o1 h) = h
  /\ snd (createChat _ _ g2 o2 h) = h
  /\ appendMessage _ _ c1 message h !! r = Some (l ++ [message])
  /\ appendMessage _ _ c1 message h !! chat_history _ _ c2
     = Some (l ++ [message]).
Proof.
  intros H1 H2 Hl. cbv zeta. unfold createChat, new_Chat.
  rewrite H1, H2. cbn [read fst snd]. unfold appendMessage. cbn [chat_history].
  destruct (push_lookup r message h) as (Hsame & _ & _).
  rewrite (Hsame l Hl). auto.
Qed.

(** X21. A chat created without a history gets an array of its own: no
    array that existed before is changed by what is appended to it, and a
    second such chat gets a different array. *)
Theorem chat_without_history_is_isolated (g : Gemini) (options : AskOptions')
    (h : heap) :
  read (opt_history _ _ options) = None ->
  let c := fst (createChat _ _ g options h) in
  let h1 := snd (createChat _ _ g options h) in
  h1 !! chat_history _ _ c = Some []
  /\ (forall messages r l,
        h !! r = Some l ->
        appendMessages _ _ c messages h1 !! r = Some l)
  /\ (forall g' (options' : AskOptions'),
        read (opt_history _ _ options') = None ->
        chat_history _ _ (fst (createChat _ _ g' options' h1))
        <> chat_history _ _ c).
Proof.
  intros Hn. cbv zeta. unfold createChat, new_Chat. rewrite Hn.
  cbn [alloc fst snd].
  set (c := {| chat_gemini := g; chat_history := length h;
               chat_options := options |}).
  assert (Hinit : (h ++ [[]]) !! chat_history _ _ c = Some [])
    by (apply list_lookup_middle; reflexivity).
  split; [exact Hinit|]. split.
  - intros messages r l Hr.
    destruct (appendMessages_lookup c messages (h ++ [[]]) [] Hinit)
      as (_ & Hother & _).
    rewrite Hother.
    + apply lookup_app_l_Some. exact Hr.
    + apply lookup_lt_Some in Hr. cbn [chat_history c]. lia.
  - intros g' options' Hn'. rewrite Hn'. cbn [alloc fst snd chat_history].
    subst c. cbn [chat_history]. rewrite length_app. cbn. lia.
Qed.

End SessionExtras.

(** * Worked examples for the chat session *)

Lemma Chat_ask_history_choice_witness :
  Chat_ask unit unit string Demo.sendMessage Demo.chat (inl "hi")
    {| opt_model := Some (Some "gemini-pro"); opt_history := Some (Some 1%nat);
       opt_generationConfig := None; opt_safetySettings := None;
       opt_systemInstruction := None |}
    [[Demo.hello]; [Demo.fine]]
  = (Ret "ok",
     [[Demo.hello];
      [Demo.fine; {| role := "user"; parts := [TextPart "hi"] |};
       {| role := "model"; parts := [TextPart "ok"] |}]]).
Proof.
  rewrite (proj1 (proj1 (proj2 (Chat_ask_history_choice unit unit string string
                                  Demo.sendMessage Demo.sendMessage Demo.chat
                                  (inl "hi")
                                  {| opt_model := Some (Some "gemini-pro");
                                     opt_history := Some (Some 1%nat);
                                     opt_generationConfig := None;
                                     opt_safetySettings := None;
                                     opt_systemInstruction := None |}
                                  [[Demo.hello]; [Demo.fine]]))
                    1%nat eq_refl)).
  reflexivity.
Defined.

Lemma appendMessage_sequence_witness :
  appendMessages unit unit Demo.chat [Demo.fine; Demo.hello] [[Demo.hello]]
    !! chat_history unit unit Demo.chat
  = Some ([Demo.hello] ++ [Demo.fine; Demo.hello]).
Proof.
  apply (appendMessage_sequence unit unit Demo.chat [Demo.fine; Demo.hello]
           [[Demo.hello]] [Demo.hello]).
  reflexivity.
Defined.

Lemma appended_history_reaches_client_witness :
  exists initial params,
    [[Demo.hello]] !! 0%nat = Some initial
    /\ Chat_ask unit unit string Demo.sendMessage Demo.chat (inl "hi")
         (no_options unit unit) [[Demo.hello; Demo.fine]]
       = Demo.sendMessage params [TextPart "hi"] [[Demo.hello; Demo.fine]]
    /\ Chat_askStream unit unit string Demo.sendMessage Demo.chat (inl "hi")
         (no_options unit unit) [[Demo.hello; Demo.fine]]
       = Demo.sendMessage params [TextPart "hi"] [[Demo.hello; Demo.fine]]
    /\ [[Demo.hello; Demo.fine]] !! sc_history unit unit params
       = Some (initial ++ [Demo.fine]).
Proof.
  apply (appended_history_reaches_client unit unit string string
           Demo.sendMessage Demo.sendMessage Demo.gemini
           {| opt_model := None; opt_history := Some (Some 0%nat);
              opt_generationConfig := None; opt_safetySettings := None;
              opt_systemInstruction := None |}
           [[Demo.hello]] [Demo.fine] (inl "hi") (no_options unit unit)).
  - discriminate.
  - reflexivity.
  - intros r [= <-]. eexists. reflexivity.
Defined.

Lemma undefined_history_option_hides_session_witness :
  let c : Chat unit unit :=
    {| chat_gemini := Demo.gemini; chat_history := 0%nat;
       chat_options :=
         {| opt_model := None; opt_history := Some None;
            opt_generationConfig := None; opt_safetySettings := None;
            opt_systemInstruction := None |} |} in
  exists params,
    [[Demo.hello]] !! 0%nat = Some [Demo.hello]
    /\ Chat_ask unit unit string Demo.sendMessage c (inl "hi")
         (no_options unit unit) [[Demo.hello]]
       = Demo.sendMessage params [TextPart "hi"] [[Demo.hello]; []]
    /\ Chat_askStream unit unit string Demo.sendMessage c (inl "hi")
         (no_options unit unit) [[Demo.hello]]
       = Demo.sendMessage params [TextPart "hi"] [[Demo.hello]; []]
    /\ sc_history unit unit params <> 0%nat
    /\ [[Demo.hello]; []] !! sc_history unit unit params = Some [].
Proof.
  exact (undefined_history_option_hides_session unit unit string string
           Demo.sendMessage Demo.sendMessage Demo.gemini
           {| opt_model := None; opt_history := Some None;
              opt_generationConfig := None; opt_safetySettings := None;
              opt_systemInstruction := None |}
           [] [Demo.hello] (inl "hi") (no_options unit unit)
           eq_refl eq_refl).
Defined.

Lemma chats_on_one_array_share_it_witness :
  let o : AskOptions unit unit :=
    {| opt_model := None; opt_history := Some (Some 0%nat);
       opt_generationConfig := None; opt_safetySettings := None;
       opt_systemInstruction := None |} in
  snd (createChat unit unit Demo.gemini o [[Demo.hello]]) = [[Demo.hello]]
  /\ snd (createChat unit unit (new_Gemini "OTHER" (Some (Some "v1"))) o
            [[Demo.hello]]) = [[Demo.hello]]
  /\ appendMessage unit unit
       (fst (createChat unit unit Demo.gemini o [[Demo.hello]])) Demo.fine
       [[Demo.hello]] !! 0%nat
     = Some ([Demo.hello] ++ [Demo.fine])
  /\ appendMessage unit unit
       (fst (createChat unit unit Demo.gemini o [[Demo.hello]])) Demo.fine
       [[Demo.hello]]
       !! chat_history unit unit
            (fst (createChat unit unit (new_Gemini "OTHER" (Some (Some "v1"))) o
                    [[Demo.hello]]))
     = Some ([Demo.hello] ++ [Demo.fine]).
Proof.
  intros o.
  exact (chats_on_one_array_share_it unit unit Demo.gemini
           (new_Gemini "OTHER" (Some (Some "v1"))) o o [[Demo.hello]] 0%nat
           [Demo.hello] Demo.fine eq_refl eq_refl eq_refl).
Defined.

Lemma chat_without_history_is_isolated_witness :
  [[Demo.hello]; []] !! 1%nat = Some []
  /\ (forall messages r l,
        [[Demo.hello]] !! r = Some l ->
        appendMessages unit unit
          (fst (createChat unit unit Demo.gemini (no_options unit unit)
                  [[Demo.hello]]))
          messages [[Demo.hello]; []] !! r = Some l)
  /\ (forall g' (options' : AskOptions unit unit),
        read (opt_history unit unit options') = None ->
        chat_history unit unit
          (fst (createChat unit unit g' options' [[Demo.hello]; []]))
        <> 1%nat).
Proof.
  exact (chat_without_history_is_isolated unit unit Demo.gemini
           (no_options unit unit) [[Demo.hello]] eq_refl).
Defined.

(** * [messageToParts] against a service that is ready at once *)

Section ReadyService.

Variable fileTypeFromBuffer : bytes -> promise (option string).
Variable mime_getType : string -> option string.
Variable toBase64 : bytes -> string.
Variable fromBase64 : string -> bytes.
Variable g : Gemini.

Variables up ok : json.
Variable f : file_info.
Hypothesis up_names_file : json_file up = Some f.
Hypothesis ok_no_error : json_error ok = None.
Hypothesis ok_active : json_state ok = Some "ACTIVE".

Local Abbreviation ready := (ready_service up ok).

Lemma ready_add (n m : nat) (rest : list reply) :
  ready (n + m) ++ rest = ready n ++ (ready m ++ rest).
Proof.
  induction n as [|n IH]; [reflexivity|]. cbn [Nat.add ready_service app].
  rewrite IH. reflexivity.
Qed.

Lemma uploadFile_ready (file : bytes) (mimeType : string) (rest : list reply)
    (lg : list event) :
  exists lg',
    uploadFile g file mimeType (World (ready 1 ++ rest) lg)
    = (Ret (file_uri f), World rest lg').
Proof using up_names_file ok_no_error ok_active.
  eexists.
  apply (uploadFile_active g file mimeType up ok f [] rest lg up_names_file
           eq_refl ok_no_error ok_active).
Qed.

Lemma assembled_ready (messages : list message) (rest : list reply)
    (lg : list event) :
  Forall (fun msg => detected fileTypeFromBuffer msg = true) messages ->
  exists parts lg',
    assembled fileTypeFromBuffer mime_getType toBase64 g messages
      (World (ready (length (video_inputs fileTypeFromBuffer mime_getType
                               messages)) ++ rest) lg)
      parts (World rest lg').
Proof using up_names_file ok_no_error ok_active.
  intros Hdet. revert lg.
  induction messages as [|msg messages IH]; intros lg.
  { exists [], lg. constructor. }
  inversion Hdet as [|? ? Hd Hdet']; subst. specialize (IH Hdet').
  cbn [video_inputs].
  destruct (binary_input msg) as [[buffer filePath]|] eqn:Hb.
  - cbn zeta.
    destruct (is_video (classify fileTypeFromBuffer mime_getType buffer filePath))
      eqn:Hv.
    + cbn [length].
      change (S ?n) with (1 + n)%nat. rewrite ready_add.
      destruct (uploadFile_ready buffer
                  (classify fileTypeFromBuffer mime_getType buffer filePath)
                  (ready (length (video_inputs fileTypeFromBuffer mime_getType
                                    messages)) ++ rest) lg) as (lg1 & Hup).
      destruct (IH lg1) as (parts & lg' & Hrun).
      eexists _, lg'. eapply assembled_upload; eassumption.
    + destruct (IH lg) as (parts & lg' & Hrun).
      eexists _, lg'. apply assembled_direct; [|exact Hd| |exact Hrun].
      * eapply handled_binary. exact Hb.
      * unfold video_input. rewrite Hb. exact Hv.
  - destruct (IH lg) as (parts & lg' & Hrun).
    destruct (handled msg) eqn:Hh.
    + eexists _, lg'. apply assembled_direct; [exact Hh|exact Hd| |exact Hrun].
      unfold video_input. rewrite Hb. reflexivity.
    + exists parts, lg'. apply assembled_skip; assumption.
Qed.

Lemma promoted_ready (parts : list Part) (rest : list reply)
    (lg : list event) :
  exists out lg',
    promoted fromBase64 g parts
      (World (ready (length (inline_payloads fromBase64 parts)) ++ rest) lg)
      out (World rest lg').
Proof using up_names_file ok_no_error ok_active.
  revert lg. induction parts as [|p parts IH]; intros lg.
  { exists [], lg. constructor. }
  destruct p as [text|mimeType data|mimeType fileUri]; cbn [inline_payloads].
  - destruct (IH lg) as (out & lg' & Hrun).
    eexists _, lg'. apply promoted_keep; [reflexivity|exact Hrun].
  - cbn [length]. change (S ?n) with (1 + n)%nat. rewrite ready_add.
    destruct (uploadFile_ready (fromBase64 data) mimeType
                (ready (length (inline_payloads fromBase64 parts)) ++ rest) lg)
      as (lg1 & Hup).
    destruct (IH lg1) as (out & lg' & Hrun).
    eexists _, lg'. eapply promoted_upload; eassumption.
  - destruct (IH lg) as (out & lg' & Hrun).
    eexists _, lg'. apply promoted_keep; [reflexivity|exact Hrun].
Qed.

(** X22. When content sniffing settles for every binary input, against a
    service that answers each upload with a file and the first status query
    with ["ACTIVE"], [messageToParts] returns: it consumes two replies per
    video input, and two more per other binary input when the total exceeds
    the threshold, and gives one part per handled element. *)
Theorem messageToParts_returns_when_service_ready (messages : list message)
    (rest : list reply) (lg : list event) :
  Forall (fun msg => detected fileTypeFromBuffer msg = true) messages ->
  let uploads :=
    (length (video_inputs fileTypeFromBuffer mime_getType messages)
     + if (SIZE_THRESHOLD <? totalBytes_of messages)%Z
       then length (inline_inputs fileTypeFromBuffer mime_getType messages)
       else 0)%nat in
  exists out lg',
    messageToParts fileTypeFromBuffer mime_getType toBase64 fromBase64 g
      messages (World (ready uploads ++ rest) lg)
    = (Ret out, World rest lg')
    /\ length out = length (List.filter handled messages).
Proof using up_names_file ok_no_error ok_active.
  intros Hdet. cbv zeta. rewrite ready_add.
  destruct (assembled_ready messages
              (ready (if (SIZE_THRESHOLD <? totalBytes_of messages)%Z
                      then length (inline_inputs fileTypeFromBuffer
                                     mime_getType messages)
                      else 0%nat) ++ rest) lg Hdet) as (parts & lg1 & Hloop).
  pose proof (assembled_traffic fileTypeFromBuffer mime_getType toBase64
                fromBase64 g _ _ _ _ Hloop) as [_ Hinline].
  assert (Hrun : exists out lg',
            messageToParts fileTypeFromBuffer mime_getType toBase64 fromBase64
              g messages
              (World (ready (length (video_inputs fileTypeFromBuffer
                                       mime_getType messages))
                        ++ ready (if (SIZE_THRESHOLD <? totalBytes_of messages)%Z
                                  then length (inline_inputs fileTypeFromBuffer
                                                 mime_getType messages)
                                  else 0%nat) ++ rest) lg)
            = (Ret out, World rest lg')).
  { destruct (SIZE_THRESHOLD <? totalBytes_of messages)%Z eqn:Hbig.
    - assert (Hlen : length (inline_inputs fileTypeFromBuffer mime_getType
                               messages)
                     = length (inline_payloads fromBase64 parts))
        by (rewrite Hinline, length_map; reflexivity).
      rewrite Hlen in Hloop |- *.
      destruct (promoted_ready parts rest lg1) as (out & lg' & Hpost).
      exists out, lg'. apply messageToParts_run. rewrite Hbig. eauto.
    - exists parts, lg1. apply messageToParts_run. rewrite Hbig.
      exists parts, (World rest lg1). split; [exact Hloop|auto]. }
  destruct Hrun as (out & lg' & Hrun). exists out, lg'.
  split; [exact Hrun|].
  apply messageToParts_parts in Hrun. apply Forall2_length in Hrun.
  symmetry. exact Hrun.
Qed.

End ReadyService.

(** A string, two videos and an image against a service that is ready at
    once: the call returns four parts and leaves the fifth reply. *)
Lemma messageToParts_returns_when_service_ready_witness :
  exists out lg',
    messageToParts Demo.fileTypeFromBuffer Demo.mime_getType Demo.toBase64
      Demo.fromBase64 Demo.gemini
      [MString "hi"; MUint8Array Demo.quicktime; FileUpload Demo.mp4 "a.mp4";
       MUint8Array Demo.png]
      (World ([Demo.uploaded; Demo.active; Demo.uploaded; Demo.active]
                ++ [Demo.failed]) [])
    = (Ret out, World [Demo.failed] lg')
    /\ length out = 4%nat.
Proof.
  apply (messageToParts_returns_when_service_ready Demo.fileTypeFromBuffer
           Demo.mime_getType Demo.toBase64 Demo.fromBase64 Demo.gemini
           {| json_file := Some (FileInfo "files/abc" "https://files.example/abc");
              json_error := None; json_state := Some "PROCESSING" |}
           {| json_file := None; json_error := None;
              json_state := Some "ACTIVE" |}
           (FileInfo "files/abc" "https://files.example/abc")
           eq_refl eq_refl eq_refl
           [MString "hi"; MUint8Array Demo.quicktime; FileUpload Demo.mp4 "a.mp4";
            MUint8Array Demo.png]
           [Demo.failed] []).
  repeat constructor.
Defined.
